(** * De-identification of medical images: the Lambda redaction pipeline

    A shallow embedding of the Lambda element of
    [aws_de_identification_of_medical_images_using_comprehend_medical_+_rekognition_+_lambda.py]
    ([lambda_handler], [detect_text], [detect_phi_boxes],
    [redact_phi_from_images], [save_image]) and of the loops of the notebook
    cells that it was derived from.

    Conventions.
    - Python floats (confidence scores, normalised coordinates) are the
      rationals they denote; [>] on them is the order of [Q], [int(...)]
      is truncation toward zero, and a product is the exact product (the
      rounding of a float product to the nearest double is left out).
    - An exception is a [Raise e] result; a function that touches S3 threads
      the bucket contents explicitly.
    - The AWS clients and the OpenCV codec and rasteriser are collaborators:
      they are variables of the sections below. *)

From Stdlib Require Import ZArith QArith Qabs Qround Lia Lqa.
From stdpp Require Import gmap strings list.

Local Open Scope Z_scope.

(** ** Exceptions and results *)

Inductive exn : Type :=
  | ClientError (operation : string)   (* botocore: a failed or timed out AWS call *)
  | AttributeError                     (* [image.shape] when [image] is [None] *)
  | CvError                            (* [cv2.rectangle] on [None] *)
  | IndexError                         (* [box[0]] on an empty list *)
  | UnboundLocalError (name : string). (* a local read before any assignment *)

Inductive result (A : Type) : Type :=
  | Ok (a : A)
  | Raise (e : exn).
Arguments Ok {A} a.
Arguments Raise {A} e.

Definition result_bind {A B} (f : A → result B) (r : result A) : result B :=
  match r with
  | Ok a => f a
  | Raise e => Raise e
  end.

#[global] Instance result_mret : MRet result := @Ok.
#[global] Instance result_mbind : MBind result := @result_bind.

(** ** Data of the service responses *)

(** [text['Type']] of a Rekognition text detection. *)
Inductive TextType : Type := LINE | WORD.

#[global] Instance TextType_eq_dec : EqDecision TextType.
Proof. solve_decision. Defined.

(** [text['Geometry']['BoundingBox']]: ratios of the image size. *)
Record BoundingBox : Type := mkBoundingBox {
  Width : Q;
  Height : Q;
  Left : Q;
  Top : Q
}.

Record TextDetection : Type := mkTextDetection {
  DetectedText : string;
  Type_ : TextType;
  Geometry_BoundingBox : BoundingBox;
  Geometry_Polygon : list (Q * Q)
}.

(** One element of [response['Entities']] of Comprehend Medical. *)
Record Entity : Type := mkEntity { Score : Q }.

(** ** The PHI test

    [len(response['Entities'])!=0 and response['Entities'][0]['Score'] > threshold]
    (the condition of both loops: line 71 with threshold 0.4 and line 230
    with threshold 0.3). [and] short-circuits, so [Entities[0]] is read only
    on a non-empty list. *)

Definition Qgtb (a b : Q) : bool := negb (Qle_bool a b).

Definition isPhi (Entities : list Entity) (threshold : Q) : bool :=
  if bool_decide (length Entities ≠ 0%nat)
  then match Entities !! 0%nat with
       | Some e => Qgtb (Score e) threshold
       | None => false
       end
  else false.

(** The double nearest to [0.3], the [threshold] of [detect_phi_boxes]. *)
Definition threshold : Q := 5404319552844595 # 18014398509481984.

(** The double nearest to [0.4], the [threshold] of the notebook cell. *)
Definition notebook_threshold : Q := 3602879701896397 # 9007199254740992.

(** ** The box computation of [detect_phi_boxes] (lines 232-237) *)

(** Python's [int] on a float: truncation toward zero. *)
Definition int (q : Q) : Z := Z.quot (Qnum q) (Zpos (Qden q)).

(** [h] is [image.shape[1]], the number of columns of the array (the width
    of the image in pixels), and [w] is [image.shape[0]], the number of
    rows: the names are the source's. *)
Definition toPixelBox (x_y : BoundingBox) (h w : Z) : Z * Z * Z * Z :=
  let X := int (Left x_y * inject_Z h) in
  let Y := int (Top x_y * inject_Z w) in
  let W := int (Width x_y * inject_Z h) in
  let H := int (Height x_y * inject_Z w) in
  (X, Y, X + W, Y + H).

(** The components of a box [(X1, Y1, X2, Y2)]. *)
Definition box_x1 (b : Z * Z * Z * Z) : Z := b.1.1.1.
Definition box_y1 (b : Z * Z * Z * Z) : Z := b.1.1.2.
Definition box_x2 (b : Z * Z * Z * Z) : Z := b.1.2.
Definition box_y2 (b : Z * Z * Z * Z) : Z := b.2.

(** ** Images and the rasteriser

    [cv2.imdecode(..., cv2.IMREAD_COLOR)] gives an array of rows of
    three-channel pixels: [img[y][x]] is the pixel of column [x] in row [y]. *)

Definition Pixel : Type := Z * Z * Z.

Abbreviation Image := (list (list Pixel)).

Definition rows (a : Image) : Z := Z.of_nat (length a).

Definition cols (a : Image) : Z :=
  match a with
  | [] => 0
  | row :: _ => Z.of_nat (length row)
  end.

(** [image.shape]: rows first, then columns; [None] has no [shape]. *)
Definition shape (image : option Image) : result (Z * Z) :=
  match image with
  | None => Raise AttributeError
  | Some a => Ok (rows a, cols a)
  end.

Definition pixel (img : Image) (x y : nat) : option Pixel :=
  row ← img !! y; row !! x.

(** Update every pixel of the array in place, according to its position. *)
Definition map_pixels (f : nat → nat → Pixel → Pixel) (img : Image) : Image :=
  imap (λ y row, imap (λ x p, f x y p) row) img.

(** Write [color] at every pixel of the array that [cover] selects. Pixels
    that are not in the array do not exist: drawing is clipped to it. *)
Definition paint (cover : Z → Z → bool) (color : Pixel) (img : Image) : Image :=
  map_pixels (λ x y p, if cover (Z.of_nat x) (Z.of_nat y) then color else p) img.

(** The rectangle of opposite corners [pt1] and [pt2], borders included. *)
Definition in_rect (pt1 pt2 : Z * Z) (x y : Z) : bool :=
  bool_decide (Z.min pt1.1 pt2.1 ≤ x ≤ Z.max pt1.1 pt2.1 ∧
               Z.min pt1.2 pt2.2 ≤ y ≤ Z.max pt1.2 pt2.2).

(** The four sides of that rectangle. *)
Definition on_sides (pt1 pt2 : Z * Z) (x y : Z) : bool :=
  in_rect pt1 pt2 x y &&
  bool_decide (x = pt1.1 ∨ x = pt2.1 ∨ y = pt1.2 ∨ y = pt2.2).

(** [cv2.FILLED] and [cv2.LINE_4]. *)
Definition FILLED : Z := -1.
Definition LINE_4 : Z := 4.

(** A pen: the pixels that the outline of the rectangle of corners [pt1]
    and [pt2], drawn with a given thickness, touches. Which pixels these are
    is the rasteriser's business; the properties of the redactor below hold
    for every pen. *)
Definition Pen : Type := Z → Z * Z → Z * Z → Z → Z → bool.

(** A pen that touches the pixels at most [thickness / 2] away, along an
    axis, from a side of the rectangle. *)
Definition band_pen : Pen := λ thickness pt1 pt2 x y,
  let r := thickness / 2 in
  let lo := (Z.min pt1.1 pt2.1, Z.min pt1.2 pt2.2) in
  let hi := (Z.max pt1.1 pt2.1, Z.max pt1.2 pt2.2) in
  in_rect (lo.1 - r, lo.2 - r) (hi.1 + r, hi.2 + r) x y &&
  negb (bool_decide (lo.1 + r < x < hi.1 - r ∧ lo.2 + r < y < hi.2 - r)).

(** [cv2.rectangle(img, pt1, pt2, color, thickness)]: the fifth positional
    argument is the thickness. A negative thickness fills the rectangle;
    otherwise the outline is drawn with the pen. The array is updated in
    place and returned. *)
Definition rectangle (pen : Pen) (img : Image) (pt1 pt2 : Z * Z)
    (color : Pixel) (thickness : Z) : Image :=
  if bool_decide (thickness < 0)
  then paint (in_rect pt1 pt2) color img
  else paint (pen thickness pt1 pt2) color img.

(** An element of [phi_boxes]: the text and a list holding one box. *)
Abbreviation phi_box := (string * list (Z * Z * Z * Z))%type.

(** ** Strings: [str.replace] for a non-empty [old]

    Occurrences are found from the left and do not overlap: after a
    replacement the scan resumes behind the occurrence ([skip] counts the
    characters of it still to pass). *)

Fixpoint str_replace_from (skip : nat) (old new s : string) : string :=
  match s with
  | EmptyString => EmptyString
  | String c s' =>
      match skip with
      | S k => str_replace_from k old new s'
      | O =>
          if String.prefix old s
          then new +:+ str_replace_from (String.length old - 1) old new s'
          else String c (str_replace_from 0 old new s')
      end
  end.

Definition str_replace (s old new : string) : string :=
  str_replace_from 0 old new s.

(** [old] occurs in [s]. *)
Definition occurs (old s : string) : Prop :=
  ∃ pre post : string, s = pre +:+ old +:+ post.

(** [old in s], by trying every position of [s]. *)
Fixpoint contains (old s : string) : bool :=
  String.prefix old s ||
  match s with
  | EmptyString => false
  | String _ s' => contains old s'
  end.

(** ** S3 *)

Abbreviation bytes := (list Byte.byte).

(** The objects by (bucket, key), and the [put_object] calls so far. *)
Record S3 : Type := mkS3 {
  objects : gmap (string * string) (bytes);
  put_log : list (string * string * bytes)
}.

(** The part of the S3 event that the handler reads:
    [event['Records'][0]['s3']]. *)
Record Event : Type := mkEvent {
  bucket_name : string;
  object_key : string
}.

Record Response : Type := mkResponse {
  statusCode : Z;
  body : string
}.

(** [json.dumps('Hello from Lambda!')]: the text between two quote marks. *)
Definition json_dumps_hello : string :=
  let q := String (Ascii.ascii_of_nat 34) EmptyString in
  q +:+ "Hello from Lambda!" +:+ q.

(** Code that can raise and that reads and writes S3. *)
Definition Lambda (A : Type) : Type := S3 → result A * S3.

Definition lambda_ret {A} (a : A) : Lambda A := λ s, (Ok a, s).

Definition lambda_bind {A B} (f : A → Lambda B) (m : Lambda A) : Lambda B :=
  λ s, match m s with
       | (Ok a, s') => f a s'
       | (Raise e, s') => (Raise e, s')
       end.

Definition lift {A} (r : result A) : Lambda A := λ s, (r, s).

#[global] Instance lambda_mret : MRet Lambda := @lambda_ret.
#[global] Instance lambda_mbind : MBind Lambda := @lambda_bind.

(** [my_bucket.Object(key).get()['Body'].read()] *)
Definition s3_get (bucket key : string) : Lambda (bytes) := λ s,
  match objects s !! (bucket, key) with
  | Some file_stream => (Ok file_stream, s)
  | None => (Raise (ClientError "GetObject"), s)
  end.

(** [s3.put_object(Bucket=bucket, Key=key, Body=...)] *)
Definition s3_put_object (bucket key : string) (Body : bytes) : Lambda unit :=
  λ s, (Ok tt, {| objects := <[(bucket, key) := Body]> (objects s);
                  put_log := put_log s ++ [(bucket, key, Body)] |}).

(** ** The Lambda function *)

Section Lambda.

(** The pen of the rasteriser, the two AWS clients and the image codec. *)
Variable pen : Pen.
Variable rekognition_detect_text : string → string → result (list TextDetection).
Variable comprehend_medical_detect_phi : string → result (list Entity).
Variable imdecode : bytes → option Image.
Variable imencode : Image → bytes.

Definition detect_text (bucket key : string) : result (list TextDetection) :=
  response ← rekognition_detect_text bucket key;
  mret response.

(** The loop of [detect_phi_boxes]; the boxes come out in the order of
    [texts]. *)
Fixpoint detect_phi_boxes_loop (h w : Z) (texts : list TextDetection)
    : result (list phi_box) :=
  match texts with
  | [] => mret []
  | text :: texts' =>
      if decide (Type_ text = LINE) then
        Entities ← comprehend_medical_detect_phi (DetectedText text);
        if isPhi Entities threshold then
          let box := [toPixelBox (Geometry_BoundingBox text) h w] in
          phi_boxes ← detect_phi_boxes_loop h w texts';
          mret ((DetectedText text, box) :: phi_boxes)
        else detect_phi_boxes_loop h w texts'
      else detect_phi_boxes_loop h w texts'
  end.

Definition detect_phi_boxes (texts : list TextDetection) (image : option Image)
    : result (list phi_box) :=
  '(shape0, shape1) ← shape image;
  let h := shape1 in
  let w := shape0 in
  detect_phi_boxes_loop h w texts.

(** The loop of [redact_phi_from_images]. [img], [img_filled] and
    [img_boxed] name one array, which every iteration draws on;
    [img_boxed] is unbound ([None]) until the first iteration ends. *)
Fixpoint redact_loop (phi_boxes : list phi_box) (img : option Image)
    (img_boxed : option Image) : result (option Image) :=
  match phi_boxes with
  | [] => mret img_boxed
  | (text, box) :: phi_boxes' =>
      match box !! 0%nat with
      | None => Raise IndexError
      | Some (X1, Y1, X2, Y2) =>
          match img with
          | None => Raise CvError
          | Some a =>
              let img_filled := rectangle pen a (X1, Y1) (X2, Y2) (0, 0, 0) FILLED in
              let img_boxed :=
                rectangle pen img_filled (X1, Y1) (X2, Y2) (255, 255, 255) LINE_4 in
              redact_loop phi_boxes' (Some img_boxed) (Some img_boxed)
          end
      end
  end.

Definition redact_phi_from_images (phi_boxes : list phi_box) (img : option Image)
    : result Image :=
  img_boxed ← redact_loop phi_boxes img None;
  match img_boxed with
  | Some a => mret a
  | None => Raise (UnboundLocalError "img_boxed")
  end.

(** [imencode img] is the content of [/tmp/abc.jpg] after [cv2.imwrite]. *)
Definition save_image (bucket key : string) (img : Image) : Lambda unit :=
  s3_put_object bucket key (imencode img).

Definition lambda_handler (event : Event) : Lambda Response :=
  let bucket := bucket_name event in
  let key := object_key event in
  file_stream ← s3_get bucket key;
  let img := imdecode file_stream in
  texts ← lift (detect_text bucket key);
  phi_boxes ← lift (detect_phi_boxes texts img);
  img_redacted ← lift (redact_phi_from_images phi_boxes img);
  let key := str_replace key "Images/" "RedactedImages/" in
  save_image bucket key img_redacted;;
  mret {| statusCode := 200; body := json_dumps_hello |}.

End Lambda.

(** ** The notebook cells (lines 66-86)

    The same pipeline on a PIL image: the regions are the polygons of the
    detections, scaled to pixels and kept as floats, and each region adds
    two frames to an animated preview. *)

Section Notebook.

(** The classifier, and the two drawing calls of [ImageDraw]:
    [draw.polygon(xy=box, fill=(20,20,20,100))] and
    [draw.line(xy=box, fill=(255,255,255,255), width=7)]. *)
Variable comprehend_medical_detect_phi : string → result (list Entity).
Variable draw_polygon : Image → list (Q * Q) → Image.
Variable draw_line : Image → list (Q * Q) → Image.

Fixpoint notebook_phi_boxes (h w : Z) (texts : list TextDetection)
    : result (list (string * list (Q * Q))) :=
  match texts with
  | [] => mret []
  | text :: texts' =>
      if decide (Type_ text = LINE) then
        Entities ← comprehend_medical_detect_phi (DetectedText text);
        if isPhi Entities notebook_threshold then
          let box :=
            (λ x_y : Q * Q, (x_y.1 * inject_Z h, x_y.2 * inject_Z w)%Q)
              <$> Geometry_Polygon text in
          phi_boxes ← notebook_phi_boxes h w texts';
          mret ((DetectedText text, box) :: phi_boxes)
        else notebook_phi_boxes h w texts'
      else notebook_phi_boxes h w texts'
  end.

(** The drawing loop: the image after it, and the frames in order. *)
Fixpoint notebook_frames (phi_boxes : list (string * list (Q * Q))) (img : Image)
    : Image * list Image :=
  match phi_boxes with
  | [] => (img, [])
  | (text, box) :: phi_boxes' =>
      let img1 := draw_polygon img box in
      let img2 := draw_line img1 box in
      let '(img', frames) := notebook_frames phi_boxes' img2 in
      (img', img1 :: img2 :: frames)
  end.

(** [frames[0].save(..., append_images=frames[1:], ...)]: the frames of the
    preview, or [IndexError] when there is none. *)
Definition notebook_preview (phi_boxes : list (string * list (Q * Q))) (img : Image)
    : result (list Image) :=
  let frames := (notebook_frames phi_boxes img).2 in
  match frames !! 0%nat with
  | Some first => mret (first :: drop 1 frames)
  | None => Raise IndexError
  end.

End Notebook.

(** ** Vocabulary of the statements and sample data *)



Definition in_unit_interval (q : Q) : Prop := (0 <= q)%Q ∧ (q <= 1)%Q.

(** The fill colour and the outline colour of [redact_phi_from_images]. *)
Definition fill_color : Pixel := (0, 0, 0).
Definition outline_color : Pixel := (255, 255, 255).

(** What one iteration of the redaction loop leaves at a pixel: the outline
    colour under the pen, else the fill colour in the box, else the pixel. *)
Definition stamp (pen : Pen) (b : Z * Z * Z * Z) (x y : nat) (p : Pixel) : Pixel :=
  let pt1 := (box_x1 b, box_y1 b) in
  let pt2 := (box_x2 b, box_y2 b) in
  if pen LINE_4 pt1 pt2 (Z.of_nat x) (Z.of_nat y) then outline_color
  else if in_rect pt1 pt2 (Z.of_nat x) (Z.of_nat y) then fill_color
  else p.

(** The line of the end-to-end scenario: box
    [{left: 0.1, top: 0.05, width: 0.3, height: 0.04}]. *)
Definition patient_line : TextDetection :=
  {| DetectedText := "Patient: John Doe";
     Type_ := LINE;
     Geometry_BoundingBox :=
       {| Width := 3 # 10; Height := 4 # 100; Left := 1 # 10; Top := 5 # 100 |};
     Geometry_Polygon := [] |}.

Definition patient_word : TextDetection :=
  {| DetectedText := "Patient:";
     Type_ := WORD;
     Geometry_BoundingBox :=
       {| Width := 1 # 10; Height := 4 # 100; Left := 1 # 10; Top := 5 # 100 |};
     Geometry_Polygon := [] |}.

(** A classifier that reports one entity of score 0.9 for every text. *)
Definition always_phi : string → result (list Entity) :=
  λ _, Ok [{| Score := 9 # 10 |}].

(** A classifier that reports no entity. *)
Definition never_phi : string → result (list Entity) :=
  λ _, Ok [].

Definition uniform_image (rows cols : nat) (p : Pixel) : Image :=
  replicate rows (replicate cols p).

(** A pixel that holds the fill colour or the outline colour. *)
Definition inked (p : Pixel) : Prop := p = fill_color ∨ p = outline_color.

(** Two regions that overlap: the left side of the second box, the column
    [x = 15], crosses the inside of the first box. *)
Definition overlapping_boxes : list phi_box :=
  [("Patient: John Doe"%string, [(5, 5, 25, 25)]);
   ("DOB: 01/01/1970"%string, [(15, 0, 29, 29)])].


Definition rekognition_patient : string → string → result (list TextDetection) :=
  λ _ _, Ok [patient_word; patient_line].

(** A codec for the examples: every file decodes to a grey image of 20
    rows and 10 columns, and an image is encoded as its number of rows. *)
Definition sample_imdecode : bytes → option Image :=
  λ _, Some (uniform_image 20 10 (7, 7, 7)).

Definition sample_imencode : Image → bytes :=
  λ img, [default Byte.x00 (Byte.of_nat (length img))].

Definition sample_s3 (key : string) : S3 :=
  {| objects := {[ ("bucket"%string, key) := [Byte.xff; Byte.xd8] ]};
     put_log := [] |}.

(** The run of the handler on the sample collaborators, for the object
    [key] of the sample bucket. *)
Definition sample_event (key : string) : Event :=
  {| bucket_name := "bucket"; object_key := key |}.

Definition sample_run (key : string) : result Response * S3 :=
  lambda_handler band_pen rekognition_patient always_phi sample_imdecode
    sample_imencode (sample_event key) (sample_s3 key).

(** The first box of every region, when every region holds one. *)
Definition first_boxes (phi_boxes : list phi_box) : option (list (Z * Z * Z * Z)) :=
  mapM (λ r : phi_box, r.2 !! 0%nat) phi_boxes.

(** What the whole redaction loop leaves at a pixel: the stamps of the
    boxes, in the order of the regions. *)
Definition stamp_all (pen : Pen) (bs : list (Z * Z * Z * Z)) (x y : nat) (p : Pixel)
    : Pixel :=
  foldl (λ q b, stamp pen b x y q) p bs.



(** * Properties *)

(** ** The PHI test *)

Lemma Qgtb_lt (a b : Q) : Qgtb a b = true ↔ (b < a)%Q.
Proof.
  unfold Qgtb. rewrite negb_true_iff, <- not_true_iff_false, Qle_bool_iff.
  split; [apply Qnot_le_lt | apply Qlt_not_le].
Qed.

Lemma isPhi_true (Entities : list Entity) (t : Q) :
  isPhi Entities t = true ↔ ∃ e rest, Entities = e :: rest ∧ (t < Score e)%Q.
Proof.
  unfold isPhi. destruct Entities as [|e rest]; simpl.
  - split; [discriminate | intros (e & rest & [=] & _)].
  - rewrite Qgtb_lt. split.
    + intros Hlt. exists e, rest. auto.
    + intros (e' & rest' & [= <- <-] & Hlt). exact Hlt.
Qed.

(** C2. [isPhi] holds exactly when the list of entities is not empty and the
    score of its first entity is strictly above the threshold; it is false
    on the empty list, and false when the first score equals the
    threshold. *)
Theorem isPhi_first_score_above (Entities : list Entity) (t : Q) :
  (isPhi Entities t = true ↔
     Entities ≠ [] ∧ ∃ e, Entities !! 0%nat = Some e ∧ (t < Score e)%Q) ∧
  isPhi [] t = false ∧
  (∀ e rest, (Score e == t)%Q → isPhi (e :: rest) t = false).
Proof.
  split; [|split].
  - rewrite isPhi_true. split.
    + intros (e & rest & -> & Hlt). split; [discriminate | exists e; auto].
    + intros [Hne (e & He & Hlt)]. destruct Entities as [|e' rest]; [done|].
      injection He as ->. exists e, rest. auto.
  - reflexivity.
  - intros e rest Heq. apply not_true_iff_false. rewrite isPhi_true.
    intros (e' & rest' & [= <- <-] & Hlt). rewrite Heq in Hlt.
    exact (Qlt_irrefl _ Hlt).
Qed.

(** The boundary cases of the specification, at the notebook's threshold. *)
Example isPhi_boundary :
  isPhi [{| Score := 5 # 10 |}] (4 # 10) = true ∧
  isPhi [{| Score := 3 # 10 |}] (4 # 10) = false ∧
  isPhi [{| Score := 4 # 10 |}] (4 # 10) = false ∧
  isPhi [{| Score := 1 # 10 |}; {| Score := 9 # 10 |}] (4 # 10) = false.
Proof. repeat split. Qed.

(** ** The box computation *)

Lemma int_scale (a : Q) (n : Z) :
  int (a * inject_Z n) = Z.quot (Qnum a * n) (Zpos (Qden a)).
Proof. unfold int; simpl. now rewrite Pos.mul_1_r. Qed.


Lemma int_scale_range (a : Q) (n : Z) :
  in_unit_interval a → 0 ≤ n → 0 ≤ int (a * inject_Z n) ≤ n.
Proof.
  intros [H0 H1] Hn. rewrite int_scale. destruct a as [p d].
  unfold Qle in *; simpl in *.
  rewrite Z.quot_div_nonneg by nia. split.
  - apply Z.div_pos; nia.
  - apply Z.div_le_upper_bound; nia.
Qed.

Lemma int_scale_sum (a b : Q) (n : Z) :
  (0 <= a)%Q → (0 <= b)%Q → (a + b <= 1)%Q → 0 ≤ n →
  int (a * inject_Z n) + int (b * inject_Z n) ≤ n.
Proof.
  intros Ha Hb Hab Hn. rewrite !int_scale.
  destruct a as [p d], b as [q e]. unfold Qle, Qplus in *; simpl in *.
  rewrite !Z.quot_div_nonneg by nia.
  pose proof (Z.mul_div_le (p * n) (Z.pos d) eq_refl) as H1.
  pose proof (Z.mul_div_le (q * n) (Z.pos e) eq_refl) as H2.
  pose proof (Z.div_pos (p * n) (Z.pos d)) as H3.
  pose proof (Z.div_pos (q * n) (Z.pos e)) as H4.
  set (x := p * n / Z.pos d) in *. set (y := q * n / Z.pos e) in *.
  rewrite Pos2Z.inj_mul in Hab.
  assert (Hd : 0 < Z.pos d) by lia. assert (He : 0 < Z.pos e) by lia.
  set (D := Z.pos d) in *. set (E := Z.pos e) in *.
  assert (Hx : 0 ≤ x) by (apply H3; nia).
  assert (Hy : 0 ≤ y) by (apply H4; nia).
  assert (Hmain : (x + y) * (D * E) ≤ n * (D * E)) by nia.
  apply Z.mul_le_mono_pos_r in Hmain; nia.
Qed.

(** C4, as the code has it. The box is not clamped: for coordinates in
    [0,1] and positive dimensions it starts inside the image and is not
    inverted, but its far corner can lie beyond the image, at most at twice
    its size; it lies within the image when [left + width <= 1] and
    [top + height <= 1]. *)
Theorem toPixelBox_bounds (x_y : BoundingBox) (imageWidth imageHeight : Z) :
  in_unit_interval (Left x_y) → in_unit_interval (Top x_y) →
  in_unit_interval (Width x_y) → in_unit_interval (Height x_y) →
  0 < imageWidth → 0 < imageHeight →
  let b := toPixelBox x_y imageWidth imageHeight in
  (0 ≤ box_x1 b ≤ box_x2 b ∧ box_x1 b ≤ imageWidth ∧ box_x2 b ≤ 2 * imageWidth ∧
   ((Left x_y + Width x_y <= 1)%Q → box_x2 b ≤ imageWidth)) ∧
  (0 ≤ box_y1 b ≤ box_y2 b ∧ box_y1 b ≤ imageHeight ∧ box_y2 b ≤ 2 * imageHeight ∧
   ((Top x_y + Height x_y <= 1)%Q → box_y2 b ≤ imageHeight)).
Proof.
  intros Hl Ht Hw Hh HW HH b. subst b.
  unfold toPixelBox, box_x1, box_x2, box_y1, box_y2; simpl.
  pose proof (int_scale_range _ imageWidth Hl ltac:(lia)).
  pose proof (int_scale_range _ imageWidth Hw ltac:(lia)).
  pose proof (int_scale_range _ imageHeight Ht ltac:(lia)).
  pose proof (int_scale_range _ imageHeight Hh ltac:(lia)).
  split; (split; [lia | split; [lia | split; [lia |]]]); intros Hsum.
  - apply int_scale_sum; [apply Hl | apply Hw | exact Hsum | lia].
  - apply int_scale_sum; [apply Ht | apply Hh | exact Hsum | lia].
Qed.

Lemma toPixelBox_bounds_witness :
  let b := toPixelBox (Geometry_BoundingBox patient_line) 1000 2000 in
  (0 ≤ box_x1 b ≤ box_x2 b ∧ box_x1 b ≤ 1000 ∧ box_x2 b ≤ 2 * 1000 ∧
   (((1 # 10) + (3 # 10) <= 1)%Q → box_x2 b ≤ 1000)) ∧
  (0 ≤ box_y1 b ≤ box_y2 b ∧ box_y1 b ≤ 2000 ∧ box_y2 b ≤ 2 * 2000 ∧
   (((5 # 100) + (4 # 100) <= 1)%Q → box_y2 b ≤ 2000)).
Proof.
  apply (toPixelBox_bounds (Geometry_BoundingBox patient_line) 1000 2000);
    try (unfold in_unit_interval, Qle; simpl; lia); lia.
Defined.

(** The end-to-end scenario of the specification: a 1000 x 2000 image. *)
Example toPixelBox_patient_line :
  toPixelBox (Geometry_BoundingBox patient_line) 1000 2000 = (100, 100, 400, 180).
Proof. reflexivity. Qed.

(** C4 fails as stated: with [left = 3/4] and [width = 1/2] on a 4 x 4
    image the box is (3, 3, 5, 5), and 5 is beyond the image. *)
Lemma toPixelBox_beyond_image :
  ¬ (∀ (x_y : BoundingBox) (imageWidth imageHeight : Z),
       in_unit_interval (Left x_y) → in_unit_interval (Top x_y) →
       in_unit_interval (Width x_y) → in_unit_interval (Height x_y) →
       0 < imageWidth → 0 < imageHeight →
       let b := toPixelBox x_y imageWidth imageHeight in
       0 ≤ box_x1 b ≤ box_x2 b ∧ box_x2 b ≤ imageWidth ∧
       0 ≤ box_y1 b ≤ box_y2 b ∧ box_y2 b ≤ imageHeight).
Proof.
  intros Hclaim.
  specialize (Hclaim {| Width := 1 # 2; Height := 1 # 2; Left := 3 # 4; Top := 3 # 4 |} 4 4).
  assert (Hb : toPixelBox {| Width := 1 # 2; Height := 1 # 2;
                            Left := 3 # 4; Top := 3 # 4 |} 4 4 = (3, 3, 5, 5))
    by reflexivity.
  rewrite Hb in Hclaim. unfold box_x1, box_x2, box_y1, box_y2 in Hclaim; simpl in Hclaim.
  assert (5 ≤ 4) as Habs; [|lia].
  apply Hclaim; try (unfold in_unit_interval, Qle; simpl; lia); lia.
Qed.




(** ** The planner: [detect_phi_boxes] *)

Section Planner.

Variable comprehend : string → result (list Entity).

Lemma detect_phi_boxes_loop_origin (h w : Z) (texts : list TextDetection) :
  ∀ phi_boxes, detect_phi_boxes_loop comprehend h w texts = Ok phi_boxes →
  ∀ r, r ∈ phi_boxes →
    ∃ text, text ∈ texts ∧ Type_ text = LINE ∧
      r = (DetectedText text, [toPixelBox (Geometry_BoundingBox text) h w]) ∧
      ∃ Entities, comprehend (DetectedText text) = Ok Entities ∧
                  isPhi Entities threshold = true.
Proof.
  induction texts as [|text texts' IH]; intros phi_boxes Hrun r Hr; simpl in Hrun.
  - injection Hrun as <-. inversion Hr.
  - assert (Hrest : ∀ boxes, detect_phi_boxes_loop comprehend h w texts' = Ok boxes →
              r ∈ boxes → ∃ text0, text0 ∈ text :: texts' ∧ Type_ text0 = LINE ∧
                r = (DetectedText text0,
                     [toPixelBox (Geometry_BoundingBox text0) h w]) ∧
                ∃ Entities, comprehend (DetectedText text0) = Ok Entities ∧
                            isPhi Entities threshold = true).
    { intros boxes Hb Hin. destruct (IH boxes Hb r Hin) as (t & Ht & Hrem).
      exists t. split; [now right | exact Hrem]. }
    destruct (decide (Type_ text = LINE)) as [Hline|Hword]; [|eauto].
    unfold mbind, result_mbind in Hrun.
    destruct (comprehend (DetectedText text)) as [Entities|e] eqn:Hcall;
      simpl in Hrun; [|discriminate].
    destruct (isPhi Entities threshold) eqn:Hphi; [|eauto].
    destruct (detect_phi_boxes_loop comprehend h w texts') as [boxes|e] eqn:Hloop;
      simpl in Hrun; [|discriminate].
    injection Hrun as <-.
    apply elem_of_cons in Hr as [->|Hr]; [|eauto].
    exists text. split; [now left|]. split; [exact Hline|]. split; [reflexivity|].
    exists Entities. split; [exact Hcall | exact Hphi].
Qed.

Lemma detect_phi_boxes_loop_lines (h w : Z) (texts : list TextDetection) :
  detect_phi_boxes_loop comprehend h w (filter (λ text, Type_ text = LINE) texts) =
  detect_phi_boxes_loop comprehend h w texts.
Proof.
  induction texts as [|text texts' IH]; [reflexivity|].
  destruct (decide (Type_ text = LINE)) as [Hline|Hword].
  - rewrite filter_cons_True by exact Hline. simpl.
    destruct (decide (Type_ text = LINE)); [|contradiction].
    now rewrite IH.
  - rewrite filter_cons_False by exact Hword. simpl.
    destruct (decide (Type_ text = LINE)); [contradiction|]. exact IH.
Qed.

Lemma detect_phi_boxes_loop_total (h w : Z) (texts : list TextDetection) :
  (∀ text, text ∈ texts → Type_ text = LINE →
     ∃ Entities, comprehend (DetectedText text) = Ok Entities) →
  ∃ phi_boxes, detect_phi_boxes_loop comprehend h w texts = Ok phi_boxes.
Proof.
  induction texts as [|text texts' IH]; intros Hcalls; simpl.
  - eexists; reflexivity.
  - destruct IH as [boxes Hboxes].
    { intros t Ht. apply Hcalls. now right. }
    destruct (decide (Type_ text = LINE)) as [Hline|Hword]; [|eauto].
    destruct (Hcalls text ltac:(now left) Hline) as [Entities ->].
    unfold mbind, result_mbind; simpl.
    destruct (isPhi Entities threshold); [|eauto].
    rewrite Hboxes; simpl. eexists; reflexivity.
Qed.

(** C3. Every region that [detect_phi_boxes] returns comes from a
    detection of type [LINE] for which the classifier returned an entity
    of score strictly above the threshold, and holds the text and the box
    of that detection; detections of type [WORD] contribute nothing,
    whatever the classifier would say of them. *)
Theorem detect_phi_boxes_only_phi_lines
    (texts : list TextDetection) (image : option Image) (phi_boxes : list phi_box) :
  detect_phi_boxes comprehend texts image = Ok phi_boxes →
  (∀ r, r ∈ phi_boxes →
     ∃ text a, text ∈ texts ∧ Type_ text = LINE ∧ image = Some a ∧
       r = (DetectedText text,
            [toPixelBox (Geometry_BoundingBox text) (cols a) (rows a)]) ∧
       ∃ Entities e, comprehend (DetectedText text) = Ok Entities ∧
                     e ∈ Entities ∧ (threshold < Score e)%Q) ∧
  detect_phi_boxes comprehend (filter (λ text, Type_ text = LINE) texts) image
    = Ok phi_boxes ∧
  ((∀ text, text ∈ texts → Type_ text = WORD) → phi_boxes = []).
Proof.
  intros Hrun. unfold detect_phi_boxes in *.
  destruct image as [a|]; simpl in *; [|discriminate].
  assert (Horigin := detect_phi_boxes_loop_origin _ _ _ _ Hrun).
  split; [|split].
  - intros r Hr. destruct (Horigin r Hr) as (text & Hin & Hline & -> & Entities & Hcall & Hphi).
    exists text, a. repeat (split; [done|]).
    apply isPhi_true in Hphi as (e & rest & -> & Hlt).
    exists (e :: rest), e. split; [exact Hcall|]. split; [now left | exact Hlt].
  - now rewrite detect_phi_boxes_loop_lines.
  - intros Hwords. destruct phi_boxes as [|r rest]; [reflexivity|].
    destruct (Horigin r ltac:(now left)) as (text & Hin & Hline & _).
    rewrite (Hwords text Hin) in Hline. discriminate.
Qed.

End Planner.

(** The loop of the notebook keeps the same detections, at its own
    threshold. *)
Lemma notebook_phi_boxes_origin (comprehend : string → result (list Entity))
    (h w : Z) (texts : list TextDetection) :
  ∀ phi_boxes, notebook_phi_boxes comprehend h w texts = Ok phi_boxes →
  ∀ r, r ∈ phi_boxes →
    ∃ text, text ∈ texts ∧ Type_ text = LINE ∧ r.1 = DetectedText text ∧
      ∃ Entities, comprehend (DetectedText text) = Ok Entities ∧
                  isPhi Entities notebook_threshold = true.
Proof.
  induction texts as [|text texts' IH]; intros phi_boxes Hrun r Hr; simpl in Hrun.
  - injection Hrun as <-. inversion Hr.
  - assert (Hrest : ∀ boxes, notebook_phi_boxes comprehend h w texts' = Ok boxes →
              r ∈ boxes → ∃ text0, text0 ∈ text :: texts' ∧ Type_ text0 = LINE ∧
                r.1 = DetectedText text0 ∧
                ∃ Entities, comprehend (DetectedText text0) = Ok Entities ∧
                            isPhi Entities notebook_threshold = true).
    { intros boxes Hb Hin. destruct (IH boxes Hb r Hin) as (t & Ht & Hrem).
      exists t. split; [now right | exact Hrem]. }
    destruct (decide (Type_ text = LINE)) as [Hline|Hword]; [|eauto].
    unfold mbind, result_mbind in Hrun.
    destruct (comprehend (DetectedText text)) as [Entities|e] eqn:Hcall;
      simpl in Hrun; [|discriminate].
    destruct (isPhi Entities notebook_threshold) eqn:Hphi; [|eauto].
    destruct (notebook_phi_boxes comprehend h w texts') as [boxes|e] eqn:Hloop;
      simpl in Hrun; [|discriminate].
    injection Hrun as <-.
    apply elem_of_cons in Hr as [->|Hr]; [|eauto].
    exists text. split; [now left|]. split; [exact Hline|]. split; [reflexivity|].
    exists Entities. split; [exact Hcall | exact Hphi].
Qed.

(** In the notebook too, an image without a region stops the cell: there
    is no first frame to save. *)
Lemma notebook_preview_no_region (draw_polygon draw_line : Image → list (Q * Q) → Image)
    (img : Image) :
  notebook_preview draw_polygon draw_line [] img = Raise IndexError.
Proof. reflexivity. Qed.

Lemma notebook_frames_length (draw_polygon draw_line : Image → list (Q * Q) → Image)
    (phi_boxes : list (string * list (Q * Q))) (img : Image) :
  length (notebook_frames draw_polygon draw_line phi_boxes img).2
    = (2 * length phi_boxes)%nat.
Proof.
  revert img. induction phi_boxes as [|[text box] rest IH]; intros img; [reflexivity|].
  simpl. specialize (IH (draw_line (draw_polygon img box) box)).
  destruct (notebook_frames _ _ rest _) as [img' frames]. simpl in *. lia.
Qed.

Lemma detect_phi_boxes_only_phi_lines_witness :
  detect_phi_boxes always_phi [patient_word; patient_line]
    (Some (uniform_image 2000 1000 (7, 7, 7)))
    = Ok [("Patient: John Doe"%string, [(100, 100, 400, 180)])] ∧
  detect_phi_boxes always_phi
    (filter (λ text, Type_ text = LINE) [patient_word; patient_line])
    (Some (uniform_image 2000 1000 (7, 7, 7)))
    = Ok [("Patient: John Doe"%string, [(100, 100, 400, 180)])].
Proof.
  assert (Hrun : detect_phi_boxes always_phi [patient_word; patient_line]
                   (Some (uniform_image 2000 1000 (7, 7, 7)))
                 = Ok [("Patient: John Doe"%string, [(100, 100, 400, 180)])])
    by (vm_compute; reflexivity).
  split; [exact Hrun|].
  exact (proj1 (proj2 (detect_phi_boxes_only_phi_lines always_phi _ _ _ Hrun))).
Defined.

Lemma toPixelBox_zero_size (x_y : BoundingBox) (h w : Z) :
  let b := toPixelBox x_y h w in
  (h = 0 → box_x1 b = 0 ∧ box_x2 b = 0) ∧ (w = 0 → box_y1 b = 0 ∧ box_y2 b = 0).
Proof.
  unfold toPixelBox, box_x1, box_x2, box_y1, box_y2; simpl.
  split; intros ->; rewrite !int_scale, !Z.mul_0_r; simpl; auto.
Qed.

(** C7, as the code has it. The box computation checks no dimension and
    raises nothing of its own: on an array, whatever its shape,
    [detect_phi_boxes] returns its regions as soon as the classifier calls
    return; on an array without columns the boxes have [x1 = x2 = 0], and
    on one without rows [y1 = y2 = 0]. *)
Theorem detect_phi_boxes_no_dimension_check
    (comprehend : string → result (list Entity))
    (texts : list TextDetection) (a : Image) :
  (∀ text, text ∈ texts → Type_ text = LINE →
     ∃ Entities, comprehend (DetectedText text) = Ok Entities) →
  ∃ phi_boxes, detect_phi_boxes comprehend texts (Some a) = Ok phi_boxes ∧
    ∀ text box b, (text, box) ∈ phi_boxes → b ∈ box →
      (cols a = 0 → box_x1 b = 0 ∧ box_x2 b = 0) ∧
      (rows a = 0 → box_y1 b = 0 ∧ box_y2 b = 0).
Proof.
  intros Hcalls. unfold detect_phi_boxes; simpl.
  destruct (detect_phi_boxes_loop_total comprehend (cols a) (rows a) texts Hcalls)
    as [phi_boxes Hrun].
  exists phi_boxes. split; [exact Hrun|].
  intros text box b Hin Hb.
  destruct (detect_phi_boxes_loop_origin _ _ _ _ _ Hrun _ Hin)
    as (td & _ & _ & [= -> ->] & _).
  apply list_elem_of_singleton in Hb as ->.
  apply toPixelBox_zero_size.
Qed.

Lemma detect_phi_boxes_no_dimension_check_witness :
  ∃ phi_boxes,
    detect_phi_boxes always_phi [patient_word; patient_line] (Some [[]; []])
      = Ok phi_boxes ∧
    ∀ text box b, (text, box) ∈ phi_boxes → b ∈ box →
      (cols [[]; []] = 0 → box_x1 b = 0 ∧ box_x2 b = 0) ∧
      (rows [[]; []] = 0 → box_y1 b = 0 ∧ box_y2 b = 0).
Proof.
  apply (detect_phi_boxes_no_dimension_check always_phi
           [patient_word; patient_line] [[]; []]).
  intros text _ _. exists [{| Score := 9 # 10 |}]. reflexivity.
Defined.

(** C7 fails as stated: for an array without rows and columns
    [detect_phi_boxes] returns a region, and the box computation returns a
    box for dimensions that are zero or negative. *)
Lemma detect_phi_boxes_zero_size_image :
  shape (Some []) = Ok (0, 0) ∧
  detect_phi_boxes always_phi [patient_line] (Some [])
    = Ok [("Patient: John Doe"%string, [(0, 0, 0, 0)])] ∧
  toPixelBox (Geometry_BoundingBox patient_line) 0 0 = (0, 0, 0, 0) ∧
  toPixelBox (Geometry_BoundingBox patient_line) (-1000) (-2000)
    = (-100, -100, -400, -180).
Proof. repeat split. Qed.

(** ** The redactor: [redact_phi_from_images] *)

Lemma map_pixels_compose (f g : nat → nat → Pixel → Pixel) (img : Image) :
  map_pixels f (map_pixels g img) = map_pixels (λ x y p, f x y (g x y p)) img.
Proof.
  unfold map_pixels. apply list_eq; intros y. rewrite !list_lookup_imap.
  destruct (img !! y) as [row|]; simpl; [|reflexivity].
  f_equal. apply list_eq; intros x. rewrite !list_lookup_imap.
  destruct (row !! x); reflexivity.
Qed.

Lemma map_pixels_ext (f g : nat → nat → Pixel → Pixel) (img : Image) :
  (∀ x y p, f x y p = g x y p) → map_pixels f img = map_pixels g img.
Proof.
  intros Hfg. unfold map_pixels.
  apply imap_ext; intros y row _. apply imap_ext; intros x p _. apply Hfg.
Qed.

Lemma pixel_map_pixels (f : nat → nat → Pixel → Pixel) (img : Image) (x y : nat) :
  pixel (map_pixels f img) x y = f x y <$> pixel img x y.
Proof.
  unfold pixel, map_pixels. rewrite list_lookup_imap.
  destruct (img !! y) as [row|]; simpl; [|reflexivity].
  exact (list_lookup_imap (λ x p, f x y p) row x).
Qed.

(** A pen of the kind of [band_pen] touches at least the sides of the
    rectangle. *)
Lemma band_pen_covers_sides (thickness : Z) (pt1 pt2 : Z * Z) (x y : Z) :
  0 ≤ thickness → on_sides pt1 pt2 x y = true → band_pen thickness pt1 pt2 x y = true.
Proof.
  intros Ht. unfold on_sides, band_pen, in_rect; simpl.
  assert (0 ≤ thickness / 2) by (apply Z.div_pos; lia).
  rewrite !andb_true_iff, negb_true_iff, !bool_decide_eq_true, bool_decide_eq_false.
  lia.
Qed.

(** One iteration of the loop: the fill, then the outline on top of it. *)
Lemma redact_iteration (pen : Pen) (a : Image) (X1 Y1 X2 Y2 : Z) :
  rectangle pen (rectangle pen a (X1, Y1) (X2, Y2) (0, 0, 0) FILLED)
    (X1, Y1) (X2, Y2) (255, 255, 255) LINE_4
  = map_pixels (stamp pen (X1, Y1, X2, Y2)) a.
Proof.
  unfold rectangle, FILLED, LINE_4.
  rewrite (bool_decide_eq_true_2 (-1 < 0)) by lia.
  rewrite (bool_decide_eq_false_2 (4 < 0)) by lia.
  unfold paint. rewrite map_pixels_compose. apply map_pixels_ext.
  intros x y p. reflexivity.
Qed.

Lemma redact_loop_cons (pen : Pen) (text : string) (box : list (Z * Z * Z * Z))
    (phi_boxes : list phi_box) (a : Image) (img_boxed : option Image) :
  redact_loop pen ((text, box) :: phi_boxes) (Some a) img_boxed =
  match box !! 0%nat with
  | None => Raise IndexError
  | Some b =>
      redact_loop pen phi_boxes (Some (map_pixels (stamp pen b) a))
        (Some (map_pixels (stamp pen b) a))
  end.
Proof.
  simpl. destruct (box !! 0%nat) as [[[[X1 Y1] X2] Y2]|]; [|reflexivity].
  now rewrite redact_iteration.
Qed.

Lemma stamp_idempotent (pen : Pen) (b : Z * Z * Z * Z) (x y : nat) (p : Pixel) :
  stamp pen b x y (stamp pen b x y p) = stamp pen b x y p.
Proof. unfold stamp. repeat case_match; reflexivity. Qed.

Lemma redact_single (pen : Pen) (text : string) (box : list (Z * Z * Z * Z))
    (a : Image) :
  redact_phi_from_images pen [(text, box)] (Some a) =
  match box !! 0%nat with
  | None => Raise IndexError
  | Some b => Ok (map_pixels (stamp pen b) a)
  end.
Proof.
  unfold redact_phi_from_images. rewrite redact_loop_cons.
  destruct (box !! 0%nat); reflexivity.
Qed.

(** C8. Redacting one region twice gives the pixel values of redacting it
    once: both redacting the result again with the same region, and
    redacting with the region listed twice. *)
Theorem redact_phi_from_images_idempotent (pen : Pen) (r : phi_box) (img : Image) :
  (img1 ← redact_phi_from_images pen [r] (Some img);
   redact_phi_from_images pen [r] (Some img1))
    = redact_phi_from_images pen [r] (Some img) ∧
  redact_phi_from_images pen [r; r] (Some img)
    = redact_phi_from_images pen [r] (Some img).
Proof.
  destruct r as [text box].
  assert (Htwice : ∀ b, map_pixels (stamp pen b) (map_pixels (stamp pen b) img)
                        = map_pixels (stamp pen b) img).
  { intros b. rewrite map_pixels_compose.
    apply map_pixels_ext. intros; apply stamp_idempotent. }
  split.
  - rewrite redact_single. destruct (box !! 0%nat) as [b|] eqn:Hbox; [|reflexivity].
    change (redact_phi_from_images pen [(text, box)]
              (Some (map_pixels (stamp pen b) img)) = Ok (map_pixels (stamp pen b) img)).
    now rewrite redact_single, Hbox, Htwice.
  - rewrite redact_single. unfold redact_phi_from_images.
    rewrite redact_loop_cons.
    destruct (box !! 0%nat) as [b|] eqn:Hbox; [|reflexivity].
    now rewrite redact_loop_cons, Hbox, Htwice.
Qed.

Lemma stamp_inked (pen : Pen) (b : Z * Z * Z * Z) (x y : nat) (p : Pixel) :
  inked p → inked (stamp pen b x y p).
Proof.
  intros Hp. unfold stamp. repeat case_match; [now right | now left | exact Hp].
Qed.

Lemma stamp_in_rect (pen : Pen) (b : Z * Z * Z * Z) (x y : nat) (p : Pixel) :
  in_rect (box_x1 b, box_y1 b) (box_x2 b, box_y2 b) (Z.of_nat x) (Z.of_nat y) = true →
  inked (stamp pen b x y p).
Proof.
  intros Hin. unfold stamp. rewrite Hin. case_match; [now right | now left].
Qed.

(** The loop keeps every pixel of the array, keeps the inked pixels inked,
    and leaves the pixels of every box inked. *)
Lemma redact_loop_inked (pen : Pen) (phi_boxes : list phi_box) :
  ∀ (a : Image) (img_boxed : option Image) (a' : Image),
    img_boxed = None ∨ img_boxed = Some a →
    redact_loop pen phi_boxes (Some a) img_boxed = Ok (Some a') →
    ∀ x y p, pixel a x y = Some p →
      ∃ p', pixel a' x y = Some p' ∧
        (inked p → inked p') ∧
        (∀ text box b, (text, box) ∈ phi_boxes → box !! 0%nat = Some b →
           in_rect (box_x1 b, box_y1 b) (box_x2 b, box_y2 b)
             (Z.of_nat x) (Z.of_nat y) = true →
           inked p').
Proof.
  induction phi_boxes as [|[text0 box0] rest IH]; intros a img_boxed a' Halias Hrun x y p Hp.
  - simpl in Hrun. injection Hrun as ->.
    destruct Halias as [[=]|[= ->]].
    exists p. split; [exact Hp|]. split; [auto|].
    intros text box b Hin. inversion Hin.
  - rewrite redact_loop_cons in Hrun.
    destruct (box0 !! 0%nat) as [b0|] eqn:Hbox0; [|discriminate].
    assert (Hstep : pixel (map_pixels (stamp pen b0) a) x y = Some (stamp pen b0 x y p))
      by (rewrite pixel_map_pixels, Hp; reflexivity).
    destruct (IH _ _ a' (or_intror eq_refl) Hrun x y _ Hstep) as (p' & Hp' & Hkeep & Hboxes).
    exists p'. split; [exact Hp'|]. split.
    + intros Hinked. apply Hkeep, stamp_inked, Hinked.
    + intros text box b Hin Hbox Hrect.
      apply elem_of_cons in Hin as [[= -> ->]|Hin].
      * rewrite Hbox0 in Hbox. injection Hbox as ->.
        apply Hkeep, stamp_in_rect, Hrect.
      * exact (Hboxes text box b Hin Hbox Hrect).
Qed.

(** C1, as the code has it. After [redact_phi_from_images] has returned,
    every pixel of the image that lies in the box of a region, sides
    included, has been overwritten: it holds the fill colour (0,0,0) or the
    outline colour (255,255,255), whatever it held before. *)
Theorem redact_overwrites_boxes (pen : Pen) (phi_boxes : list phi_box)
    (img img' : Image) :
  redact_phi_from_images pen phi_boxes (Some img) = Ok img' →
  ∀ text box b (x y : nat) p,
    (text, box) ∈ phi_boxes → box !! 0%nat = Some b →
    pixel img x y = Some p →
    in_rect (box_x1 b, box_y1 b) (box_x2 b, box_y2 b) (Z.of_nat x) (Z.of_nat y) = true →
    pixel img' x y = Some fill_color ∨ pixel img' x y = Some outline_color.
Proof.
  unfold redact_phi_from_images. intros Hrun text box b x y p Hin Hbox Hp Hrect.
  destruct (redact_loop pen phi_boxes (Some img) None) as [[a|]|e] eqn:Hloop;
    simpl in Hrun; try discriminate.
  injection Hrun as ->.
  destruct (redact_loop_inked pen phi_boxes img None img' (or_introl eq_refl) Hloop x y p Hp)
    as (p' & Hp' & _ & Hboxes).
  rewrite Hp'. destruct (Hboxes text box b Hin Hbox Hrect) as [-> | ->]; auto.
Qed.

Lemma redact_overwrites_boxes_witness :
  let img' := map_pixels (stamp band_pen (5, 5, 25, 25)) (uniform_image 30 30 (7, 7, 7)) in
  redact_phi_from_images band_pen [("Patient: John Doe"%string, [(5, 5, 25, 25)])]
    (Some (uniform_image 30 30 (7, 7, 7))) = Ok img' ∧
  (pixel img' 15 15 = Some fill_color ∨ pixel img' 15 15 = Some outline_color) ∧
  (pixel img' 6 6 = Some fill_color ∨ pixel img' 6 6 = Some outline_color).
Proof.
  intros img'.
  assert (Hrun : redact_phi_from_images band_pen
                   [("Patient: John Doe"%string, [(5, 5, 25, 25)])]
                   (Some (uniform_image 30 30 (7, 7, 7))) = Ok img')
    by apply redact_single.
  split; [exact Hrun|]. split.
  - apply (redact_overwrites_boxes band_pen _ _ _ Hrun
             "Patient: John Doe"%string [(5, 5, 25, 25)] (5, 5, 25, 25) 15%nat 15%nat (7, 7, 7));
      [now left | reflexivity | reflexivity | reflexivity].
  - apply (redact_overwrites_boxes band_pen _ _ _ Hrun
             "Patient: John Doe"%string [(5, 5, 25, 25)] (5, 5, 25, 25) 6%nat 6%nat (7, 7, 7));
      [now left | reflexivity | reflexivity | reflexivity].
Defined.

(** C1 fails as stated. On a white image with [overlapping_boxes], the
    pixel (15, 15) is strictly inside the first box and on the left side of
    the second: it ends white, which is its original value and is not the
    fill colour. *)
Lemma redact_interior_not_fill :
  ¬ (∀ (phi_boxes : list phi_box) (img img' : Image),
       redact_phi_from_images band_pen phi_boxes (Some img) = Ok img' →
       ∀ text box X1 Y1 X2 Y2 (x y : nat),
         (text, box) ∈ phi_boxes → box !! 0%nat = Some (X1, Y1, X2, Y2) →
         X1 < Z.of_nat x < X2 → Y1 < Z.of_nat y < Y2 →
         is_Some (pixel img x y) →
         pixel img' x y ≠ pixel img x y) ∧
  ¬ (∀ (phi_boxes : list phi_box) (img img' : Image),
       redact_phi_from_images band_pen phi_boxes (Some img) = Ok img' →
       ∀ text box X1 Y1 X2 Y2 (x y : nat),
         (text, box) ∈ phi_boxes → box !! 0%nat = Some (X1, Y1, X2, Y2) →
         X1 < Z.of_nat x < X2 → Y1 < Z.of_nat y < Y2 →
         is_Some (pixel img x y) →
         pixel img' x y = Some fill_color).
Proof.
  assert (Hrun : ∃ img', redact_phi_from_images band_pen overlapping_boxes
                           (Some (uniform_image 30 30 outline_color)) = Ok img' ∧
                         pixel img' 15 15 = Some outline_color).
  { eexists. split; vm_compute; reflexivity. }
  destruct Hrun as (img' & Hrun & Hpixel).
  split; intros Hclaim;
    specialize (Hclaim overlapping_boxes _ img' Hrun
                  "Patient: John Doe"%string [(5, 5, 25, 25)] 5 5 25 25 15%nat 15%nat
                  ltac:(now left) eq_refl ltac:(lia) ltac:(lia) ltac:(now eexists));
    rewrite Hpixel in Hclaim.
  - apply Hclaim. reflexivity.
  - discriminate Hclaim.
Qed.

(** The pixel of that example ends in the outline colour whatever the pen,
    as soon as the pen touches the sides of the rectangle it outlines. *)
Lemma redact_overlap_any_pen (pen : Pen) (img : Image) (p : Pixel) :
  (∀ pt1 pt2 x y, on_sides pt1 pt2 x y = true → pen LINE_4 pt1 pt2 x y = true) →
  pixel img 15 15 = Some p →
  ∃ img', redact_phi_from_images pen overlapping_boxes (Some img) = Ok img' ∧
          pixel img' 15 15 = Some outline_color.
Proof.
  intros Hpen Hp.
  exists (map_pixels (stamp pen (15, 0, 29, 29))
            (map_pixels (stamp pen (5, 5, 25, 25)) img)).
  split.
  - unfold redact_phi_from_images, overlapping_boxes.
    rewrite redact_loop_cons. cbn [lookup list_lookup].
    rewrite redact_loop_cons. reflexivity.
  - rewrite !pixel_map_pixels, Hp. simpl. unfold stamp at 1.
    rewrite Hpen by reflexivity. reflexivity.
Qed.

(** The same failure with a single region: the pen of thickness 4 covers
    (6, 6), one pixel inside the box (5, 5, 25, 25). *)
Example redact_interior_under_outline :
  redact_phi_from_images band_pen [("Patient: John Doe"%string, [(5, 5, 25, 25)])]
    (Some (uniform_image 30 30 (7, 7, 7))) ≫= (λ img', mret (pixel img' 6 6, pixel img' 15 15))
  = Ok (Some outline_color, Some fill_color).
Proof. vm_compute. reflexivity. Qed.

(** ** Strings *)

Lemma prefix_app (old s : string) :
  String.prefix old s = true → ∃ post, s = old +:+ post.
Proof.
  revert s. induction old as [|c old IH]; intros s Hpre.
  - exists s. reflexivity.
  - destruct s as [|c' s']; simpl in Hpre; [discriminate|].
    destruct (Ascii.ascii_dec c c') as [->|]; [|discriminate].
    destruct (IH s' Hpre) as [post ->]. exists post. reflexivity.
Qed.

Lemma prefix_of_app (old post : string) : String.prefix old (old +:+ post) = true.
Proof.
  induction old as [|c old IH]; simpl; [now destruct post|].
  destruct (Ascii.ascii_dec c c); [exact IH | contradiction].
Qed.

(** [contains] decides [occurs]. *)
Lemma contains_occurs (old s : string) : contains old s = true ↔ occurs old s.
Proof.
  split.
  - induction s as [|c s IH]; cbn [contains]; rewrite orb_true_iff.
    + intros [Hpre|[=]]. destruct (prefix_app _ _ Hpre) as [post ->].
      exists EmptyString, post. reflexivity.
    + intros [Hpre|Hrest].
      * destruct (prefix_app _ _ Hpre) as [post ->].
        exists EmptyString, post. reflexivity.
      * destruct (IH Hrest) as (pre & post & ->).
        exists (String c pre), post. reflexivity.
  - intros (pre & post & ->). induction pre as [|c pre IH].
    + change (contains old (old +:+ post) = true).
      destruct (old +:+ post) eqn:Happ; cbn [contains];
        rewrite <- Happ, prefix_of_app; reflexivity.
    + change (contains old (String c (pre +:+ old +:+ post)) = true).
      cbn [contains]. rewrite IH. apply orb_true_r.
Qed.

Lemma contains_tail (old : string) (c : Ascii.ascii) (s : string) :
  contains old (String c s) = false →
  String.prefix old (String c s) = false ∧ contains old s = false.
Proof. cbn [contains]. intros Hno. now apply orb_false_elim in Hno. Qed.

(** A string without an occurrence of [old] is its own replacement. *)
Lemma str_replace_no_occurrence (s old new : string) :
  contains old s = false → str_replace s old new = s.
Proof.
  unfold str_replace. induction s as [|c s IH]; intros Hno; [reflexivity|].
  apply contains_tail in Hno as [Hpre Hrest].
  cbn [str_replace_from]. rewrite Hpre. f_equal. exact (IH Hrest).
Qed.

(** An object of the folder [Images/] goes to the folder
    [RedactedImages/]. *)
Lemma str_replace_Images_folder (name : string) :
  contains "Images/" name = false →
  str_replace ("Images/" +:+ name) "Images/" "RedactedImages/"
    = "RedactedImages/" +:+ name.
Proof.
  intros Hno.
  transitivity ("RedactedImages/" +:+ str_replace name "Images/" "RedactedImages/").
  - destruct name; reflexivity.
  - now rewrite str_replace_no_occurrence.
Qed.

Example str_replace_keys :
  str_replace "Images/x_ray.jpg" "Images/" "RedactedImages/" = "RedactedImages/x_ray.jpg" ∧
  str_replace "images/x_ray.jpg" "Images/" "RedactedImages/" = "images/x_ray.jpg" ∧
  str_replace "a/Images/Images/b" "Images/" "RedactedImages/"
    = "a/RedactedImages/RedactedImages/b".
Proof. repeat split. Qed.

(** ** The handler *)

Section Handler.

Variable pen : Pen.
Variable rekognition_detect_text : string → string → result (list TextDetection).
Variable comprehend : string → result (list Entity).
Variable imdecode : bytes → option Image.
Variable imencode : Image → bytes.

Local Abbreviation handler :=
  (lambda_handler pen rekognition_detect_text comprehend imdecode imencode).

(** The state after [save_image] of [img_redacted], from the state [s]. *)
Local Abbreviation stored event s img_redacted :=
  {| objects :=
       <[(bucket_name event,
          str_replace (object_key event) "Images/" "RedactedImages/")
         := imencode img_redacted]> (objects s);
     put_log :=
       put_log s ++
         [(bucket_name event,
           str_replace (object_key event) "Images/" "RedactedImages/",
           imencode img_redacted)] |}.

(** The handler, step by step. *)
Lemma lambda_handler_steps (event : Event) (s : S3) :
  handler event s =
  match objects s !! (bucket_name event, object_key event) with
  | None => (Raise (ClientError "GetObject"), s)
  | Some file_stream =>
      match rekognition_detect_text (bucket_name event) (object_key event) with
      | Raise e => (Raise e, s)
      | Ok texts =>
          match detect_phi_boxes comprehend texts (imdecode file_stream) with
          | Raise e => (Raise e, s)
          | Ok phi_boxes =>
              match redact_phi_from_images pen phi_boxes (imdecode file_stream) with
              | Raise e => (Raise e, s)
              | Ok img_redacted =>
                  (Ok {| statusCode := 200; body := json_dumps_hello |},
                   stored event s img_redacted)
              end
          end
      end
  end.
Proof.
  unfold lambda_handler, mbind, lambda_mbind, lambda_bind, s3_get, lift, detect_text.
  destruct (objects s !! (bucket_name event, object_key event)) as [file_stream|];
    [|reflexivity].
  destruct (rekognition_detect_text _ _) as [texts|e]; simpl; [|reflexivity].
  destruct (detect_phi_boxes _ _ _) as [phi_boxes|e]; [|reflexivity].
  destruct (redact_phi_from_images _ _ _) as [img_redacted|e]; reflexivity.
Qed.

Lemma detect_phi_boxes_loop_no_phi (h w : Z) (texts : list TextDetection) :
  (∀ text, text ∈ texts → Type_ text = LINE →
     ∃ Entities, comprehend (DetectedText text) = Ok Entities ∧
                 isPhi Entities threshold = false) →
  detect_phi_boxes_loop comprehend h w texts = Ok [].
Proof.
  induction texts as [|text texts' IH]; intros Hnone; simpl; [reflexivity|].
  assert (Hrest : detect_phi_boxes_loop comprehend h w texts' = Ok []).
  { apply IH. intros t Ht. apply Hnone. now right. }
  destruct (decide (Type_ text = LINE)) as [Hline|]; [|exact Hrest].
  destruct (Hnone text ltac:(now left) Hline) as (Entities & -> & Hphi).
  unfold mbind, result_mbind; simpl. now rewrite Hphi.
Qed.

(** C10. With no region, [redact_phi_from_images] does not return the
    image: it raises, reading [img_boxed], which no iteration has bound.
    So, for an image that decodes and in which no line is classified as
    PHI, the handler raises that error and stores nothing. *)
Theorem redact_phi_from_images_no_region (event : Event) (s : S3) :
  (∀ img, redact_phi_from_images pen [] img = Raise (UnboundLocalError "img_boxed")) ∧
  (∀ file_stream a texts,
     objects s !! (bucket_name event, object_key event) = Some file_stream →
     imdecode file_stream = Some a →
     rekognition_detect_text (bucket_name event) (object_key event) = Ok texts →
     (∀ text, text ∈ texts → Type_ text = LINE →
        ∃ Entities, comprehend (DetectedText text) = Ok Entities ∧
                    isPhi Entities threshold = false) →
     handler event s = (Raise (UnboundLocalError "img_boxed"), s)).
Proof.
  split; [reflexivity|].
  intros file_stream a texts Hget Hdecode Htexts Hnone.
  rewrite lambda_handler_steps, Hget, Htexts, Hdecode.
  unfold detect_phi_boxes; simpl.
  now rewrite (detect_phi_boxes_loop_no_phi _ _ _ Hnone).
Qed.

(** A run either raises and leaves S3 as it was, or passes every step
    and stores the redacted image. *)
Lemma lambda_handler_outcome (event : Event) (s s' : S3) (r : result Response) :
  handler event s = (r, s') →
  (s' = s ∧ ∃ e, r = Raise e) ∨
  ∃ file_stream texts phi_boxes img_redacted,
    objects s !! (bucket_name event, object_key event) = Some file_stream ∧
    rekognition_detect_text (bucket_name event) (object_key event) = Ok texts ∧
    detect_phi_boxes comprehend texts (imdecode file_stream) = Ok phi_boxes ∧
    redact_phi_from_images pen phi_boxes (imdecode file_stream) = Ok img_redacted ∧
    r = Ok {| statusCode := 200; body := json_dumps_hello |} ∧
    s' = stored event s img_redacted.
Proof.
  rewrite lambda_handler_steps.
  destruct (objects s !! (bucket_name event, object_key event)) as [file_stream|];
    [|intros [= <- <-]; left; eauto].
  destruct (rekognition_detect_text _ _) as [texts|e];
    [|intros [= <- <-]; left; eauto].
  destruct (detect_phi_boxes _ _ _) as [phi_boxes|e] eqn:Hplan;
    [|intros [= <- <-]; left; eauto].
  destruct (redact_phi_from_images _ _ _) as [img_redacted|e] eqn:Hredact;
    [|intros [= <- <-]; left; eauto].
  intros [= <- <-]. right.
  exists file_stream, texts, phi_boxes, img_redacted. auto 10.
Qed.


(** C9. When the handler returns, it has stored the redacted image in the
    bucket of the event under the key [key.replace('Images/',
    'RedactedImages/')]: a key of the folder [Images/] goes to the folder
    [RedactedImages/], and a key without any ['Images/'] is kept, so that
    the redacted image replaces the object that was read. *)
Theorem lambda_handler_destination_key (event : Event) (s s' : S3) (response : Response) :
  handler event s = (Ok response, s') →
  ∃ phi_boxes file_stream img_redacted,
    objects s !! (bucket_name event, object_key event) = Some file_stream ∧
    redact_phi_from_images pen phi_boxes (imdecode file_stream) = Ok img_redacted ∧
    s' = stored event s img_redacted ∧
    (∀ name, object_key event = "Images/" +:+ name →
       contains "Images/" name = false →
       objects s' !! (bucket_name event, "RedactedImages/" +:+ name)
         = Some (imencode img_redacted)) ∧
    (contains "Images/" (object_key event) = false →
       str_replace (object_key event) "Images/" "RedactedImages/" = object_key event ∧
       objects s' !! (bucket_name event, object_key event)
         = Some (imencode img_redacted)).
Proof.
  intros Hrun.
  destruct (lambda_handler_outcome _ _ _ _ Hrun)
    as [[_ [e [=]]] | (file_stream & texts & phi_boxes & img_redacted &
                       Hget & _ & _ & Hredact & _ & ->)].
  exists phi_boxes, file_stream, img_redacted.
  split; [exact Hget|]. split; [exact Hredact|]. split; [reflexivity|]. split.
  - intros name Hkey Hno. simpl.
    rewrite Hkey, (str_replace_Images_folder name Hno). apply lookup_insert_eq.
  - intros Hno. rewrite (str_replace_no_occurrence _ _ _ Hno).
    split; [reflexivity|]. simpl. apply lookup_insert_eq.
Qed.

End Handler.

(** ** Runs of the handler on sample collaborators *)

Lemma redact_phi_from_images_no_region_witness :
  lambda_handler band_pen rekognition_patient never_phi sample_imdecode sample_imencode
    {| bucket_name := "bucket"; object_key := "Images/x_ray.jpg" |}
    (sample_s3 "Images/x_ray.jpg")
  = (Raise (UnboundLocalError "img_boxed"), sample_s3 "Images/x_ray.jpg").
Proof.
  apply (proj2 (redact_phi_from_images_no_region band_pen rekognition_patient never_phi
                  sample_imdecode sample_imencode
                  {| bucket_name := "bucket"; object_key := "Images/x_ray.jpg" |}
                  (sample_s3 "Images/x_ray.jpg"))
           [Byte.xff; Byte.xd8] (uniform_image 20 10 (7, 7, 7))
           [patient_word; patient_line]).
  - vm_compute. reflexivity.
  - reflexivity.
  - reflexivity.
  - intros text _ _. exists []. split; reflexivity.
Defined.


Lemma lambda_handler_destination_key_witness :
  let run key :=
    lambda_handler band_pen rekognition_patient always_phi sample_imdecode
      sample_imencode {| bucket_name := "bucket"; object_key := key |} (sample_s3 key) in
  (run "Images/x_ray.jpg").1 = Ok {| statusCode := 200; body := json_dumps_hello |} ∧
  is_Some (objects (run "Images/x_ray.jpg").2
             !! ("bucket"%string, "RedactedImages/x_ray.jpg"%string)) ∧
  (run "x_ray.jpg").1 = Ok {| statusCode := 200; body := json_dumps_hello |} ∧
  str_replace "x_ray.jpg" "Images/" "RedactedImages/" = "x_ray.jpg".
Proof.
  intros run.
  assert (Hrun : ∀ key, (run key).1 = Ok {| statusCode := 200; body := json_dumps_hello |}).
  { intros key. unfold run. rewrite lambda_handler_steps. simpl.
    rewrite lookup_singleton_eq. reflexivity. }
  assert (Hpair : ∀ key, run key = (Ok {| statusCode := 200; body := json_dumps_hello |},
                                     (run key).2)).
  { intros key. rewrite <- (Hrun key). now destruct (run key). }
  split; [apply Hrun|]. split; [|split; [apply Hrun|]].
  - destruct (lambda_handler_destination_key _ _ _ _ _ _ _ _ _ (Hpair "Images/x_ray.jpg"))
      as (phi_boxes & file_stream & img_redacted & _ & _ & _ & Hfolder & _).
    exact (ex_intro _ _ (Hfolder "x_ray.jpg" eq_refl eq_refl)).
  - destruct (lambda_handler_destination_key _ _ _ _ _ _ _ _ _ (Hpair "x_ray.jpg"))
      as (phi_boxes & file_stream & img_redacted & _ & _ & _ & _ & Hsame).
    exact (proj1 (Hsame eq_refl)).
Defined.

(** * Further properties of the code *)

(** ** The redactor as one pass over the pixels *)

Lemma stamp_all_cons (pen : Pen) (b : Z * Z * Z * Z) (bs : list (Z * Z * Z * Z))
    (x y : nat) (p : Pixel) :
  stamp_all pen (b :: bs) x y p = stamp_all pen bs x y (stamp pen b x y p).
Proof. reflexivity. Qed.

Lemma stamp_all_app (pen : Pen) (bs1 bs2 : list (Z * Z * Z * Z)) (x y : nat) (p : Pixel) :
  stamp_all pen (bs1 ++ bs2) x y p = stamp_all pen bs2 x y (stamp_all pen bs1 x y p).
Proof. unfold stamp_all. apply foldl_app. Qed.

Lemma map_pixels_id (f : nat → nat → Pixel → Pixel) (img : Image) :
  (∀ x y p, f x y p = p) → map_pixels f img = img.
Proof.
  intros Hf. unfold map_pixels. apply list_eq; intros y. rewrite list_lookup_imap.
  destruct (img !! y) as [row|]; simpl; [|reflexivity].
  f_equal. apply list_eq; intros x. rewrite list_lookup_imap.
  destruct (row !! x); simpl; [|reflexivity]. now rewrite Hf.
Qed.

Lemma first_boxes_cons (text : string) (box : list (Z * Z * Z * Z))
    (phi_boxes : list phi_box) :
  first_boxes ((text, box) :: phi_boxes) =
  match box !! 0%nat with
  | None => None
  | Some b => match first_boxes phi_boxes with
              | None => None
              | Some bs => Some (b :: bs)
              end
  end.
Proof.
  unfold first_boxes; simpl. destruct (box !! 0%nat); simpl; [|reflexivity].
  destruct (mapM _ phi_boxes); reflexivity.
Qed.

Lemma first_boxes_app (l1 l2 : list phi_box) :
  first_boxes (l1 ++ l2) =
  match first_boxes l1, first_boxes l2 with
  | Some bs1, Some bs2 => Some (bs1 ++ bs2)
  | _, _ => None
  end.
Proof.
  induction l1 as [|[text box] l1 IH]; cbn [app].
  - change (first_boxes []) with (Some (@nil (Z * Z * Z * Z))).
    destruct (first_boxes l2); reflexivity.
  - rewrite !first_boxes_cons, IH. destruct (box !! 0%nat); [|reflexivity].
    destruct (first_boxes l1), (first_boxes l2); reflexivity.
Qed.

(** A region of [phi_boxes] and its first box, in [first_boxes]. *)
Lemma first_boxes_elem (phi_boxes : list phi_box) :
  ∀ bs, first_boxes phi_boxes = Some bs →
  (∀ text box b, (text, box) ∈ phi_boxes → box !! 0%nat = Some b → b ∈ bs) ∧
  (∀ b, b ∈ bs → ∃ text box, (text, box) ∈ phi_boxes ∧ box !! 0%nat = Some b).
Proof.
  induction phi_boxes as [|[text0 box0] rest IH]; intros bs Hbs.
  - injection Hbs as <-. split; [intros ??? Hin | intros ? Hin]; inversion Hin.
  - rewrite first_boxes_cons in Hbs.
    destruct (box0 !! 0%nat) as [b0|] eqn:Hb0; [|discriminate].
    destruct (first_boxes rest) as [bs'|]; [|discriminate].
    injection Hbs as <-. destruct (IH bs' eq_refl) as [IH1 IH2]. split.
    + intros text box b Hin Hb. apply elem_of_cons in Hin as [[= -> ->]|Hin].
      * rewrite Hb0 in Hb. injection Hb as ->. now left.
      * right. eauto.
    + intros b Hin. apply elem_of_cons in Hin as [->|Hin].
      * exists text0, box0. split; [now left | exact Hb0].
      * destruct (IH2 b Hin) as (text & box & Hin' & Hb).
        exists text, box. split; [now right | exact Hb].
Qed.

Lemma redact_loop_fold (pen : Pen) (phi_boxes : list phi_box) :
  ∀ (a : Image) (img_boxed : option Image),
    redact_loop pen phi_boxes (Some a) img_boxed =
    match first_boxes phi_boxes with
    | None => Raise IndexError
    | Some bs =>
        Ok (match phi_boxes with
            | [] => img_boxed
            | _ :: _ => Some (map_pixels (stamp_all pen bs) a)
            end)
    end.
Proof.
  induction phi_boxes as [|[text box] rest IH]; intros a img_boxed; [reflexivity|].
  rewrite redact_loop_cons, first_boxes_cons.
  destruct (box !! 0%nat) as [b|]; [|reflexivity].
  rewrite IH. destruct (first_boxes rest) as [bs|] eqn:Hbs; [|reflexivity].
  f_equal. destruct rest as [|r rest].
  - injection Hbs as <-. reflexivity.
  - now rewrite map_pixels_compose.
Qed.

Lemma redact_phi_from_images_fold (pen : Pen) (phi_boxes : list phi_box) (a : Image) :
  redact_phi_from_images pen phi_boxes (Some a) =
  match phi_boxes with
  | [] => Raise (UnboundLocalError "img_boxed")
  | _ :: _ =>
      match first_boxes phi_boxes with
      | None => Raise IndexError
      | Some bs => Ok (map_pixels (stamp_all pen bs) a)
      end
  end.
Proof.
  unfold redact_phi_from_images. rewrite redact_loop_fold.
  destruct phi_boxes; [reflexivity|]. destruct (first_boxes _); reflexivity.
Qed.

Lemma redact_phi_from_images_Ok (pen : Pen) (phi_boxes : list phi_box) (a a' : Image) :
  redact_phi_from_images pen phi_boxes (Some a) = Ok a' →
  phi_boxes ≠ [] ∧
  ∃ bs, first_boxes phi_boxes = Some bs ∧ a' = map_pixels (stamp_all pen bs) a.
Proof.
  rewrite redact_phi_from_images_fold. destruct phi_boxes as [|r rest]; [discriminate|].
  destruct (first_boxes (r :: rest)) as [bs|]; [|discriminate].
  intros [= <-]. split; [discriminate | eauto].
Qed.





(** X2. The redacted image has the shape of the image: the same numbers of
    rows and columns, and a pixel at the same positions. *)
Theorem redact_phi_from_images_shape (pen : Pen) (phi_boxes : list phi_box)
    (img img' : Image) :
  redact_phi_from_images pen phi_boxes (Some img) = Ok img' →
  rows img' = rows img ∧ cols img' = cols img ∧
  ∀ x y, is_Some (pixel img' x y) ↔ is_Some (pixel img x y).
Proof.
  intros Hrun. apply redact_phi_from_images_Ok in Hrun as (_ & bs & _ & ->).
  split; [|split].
  - unfold rows, map_pixels. now rewrite length_imap.
  - unfold cols, map_pixels. destruct img as [|row img]; [reflexivity|].
    simpl. now rewrite length_imap.
  - intros x y. rewrite pixel_map_pixels, fmap_is_Some. reflexivity.
Qed.

Lemma redact_phi_from_images_shape_witness :
  let img := uniform_image 30 20 (7, 7, 7) in
  let img' := map_pixels (stamp_all band_pen [(5, 5, 25, 25); (15, 0, 29, 29)]) img in
  rows img' = 30 ∧ cols img' = 20.
Proof.
  intros img img'.
  assert (Hrun : redact_phi_from_images band_pen overlapping_boxes (Some img) = Ok img')
    by apply redact_phi_from_images_fold.
  destruct (redact_phi_from_images_shape band_pen overlapping_boxes img img' Hrun)
    as (Hrows & Hcols & _).
  rewrite Hrows, Hcols. split; reflexivity.
Defined.

Lemma stamp_all_untouched (pen : Pen) (bs : list (Z * Z * Z * Z)) (x y : nat) (p : Pixel) :
  (∀ b, b ∈ bs →
     in_rect (box_x1 b, box_y1 b) (box_x2 b, box_y2 b) (Z.of_nat x) (Z.of_nat y) = false ∧
     pen LINE_4 (box_x1 b, box_y1 b) (box_x2 b, box_y2 b) (Z.of_nat x) (Z.of_nat y) = false) →
  stamp_all pen bs x y p = p.
Proof.
  revert p. induction bs as [|b bs IH]; intros p Hout; [reflexivity|].
  rewrite stamp_all_cons.
  destruct (Hout b ltac:(now left)) as [Hrect Hpen].
  unfold stamp at 1. rewrite Hpen, Hrect. apply IH.
  intros b' Hb'. apply Hout. now right.
Qed.

(** X3. A pixel that lies in no region's box and under no region's outline
    is left as it was. *)
Theorem redact_phi_from_images_outside (pen : Pen) (phi_boxes : list phi_box)
    (img img' : Image) (x y : nat) :
  redact_phi_from_images pen phi_boxes (Some img) = Ok img' →
  (∀ text box b, (text, box) ∈ phi_boxes → box !! 0%nat = Some b →
     in_rect (box_x1 b, box_y1 b) (box_x2 b, box_y2 b) (Z.of_nat x) (Z.of_nat y) = false ∧
     pen LINE_4 (box_x1 b, box_y1 b) (box_x2 b, box_y2 b) (Z.of_nat x) (Z.of_nat y) = false) →
  pixel img' x y = pixel img x y.
Proof.
  intros Hrun Hout. apply redact_phi_from_images_Ok in Hrun as (_ & bs & Hbs & ->).
  rewrite pixel_map_pixels. destruct (pixel img x y) as [p|]; [|reflexivity].
  simpl. f_equal. apply stamp_all_untouched.
  intros b Hb. destruct (proj2 (first_boxes_elem _ _ Hbs) b Hb) as (text & box & Hin & Hbox).
  exact (Hout text box b Hin Hbox).
Qed.

Lemma redact_phi_from_images_outside_witness :
  let img := uniform_image 30 30 (7, 7, 7) in
  let img' := map_pixels (stamp_all band_pen [(5, 5, 10, 10)]) img in
  pixel img' 20 20 = Some (7, 7, 7).
Proof.
  intros img img'.
  assert (Hrun : redact_phi_from_images band_pen [("a"%string, [(5, 5, 10, 10)])]
                   (Some img) = Ok img')
    by apply redact_phi_from_images_fold.
  rewrite (redact_phi_from_images_outside band_pen _ img img' 20 20 Hrun); [reflexivity|].
  intros text box b Hin Hbox.
  apply list_elem_of_singleton in Hin. injection Hin as -> ->.
  injection Hbox as <-. split; reflexivity.
Defined.

Lemma stamp_constant (pen : Pen) (b : Z * Z * Z * Z) (x y : nat) :
  (∀ p, stamp pen b x y p = p) ∨ (∃ c, ∀ p, stamp pen b x y p = c).
Proof.
  unfold stamp. repeat case_match; eauto.
Qed.

Lemma stamp_all_constant (pen : Pen) (bs : list (Z * Z * Z * Z)) (x y : nat) :
  (∀ p, stamp_all pen bs x y p = p) ∨ (∃ c, ∀ p, stamp_all pen bs x y p = c).
Proof.
  induction bs as [|b bs IH]; [now left|].
  destruct (stamp_constant pen b x y) as [Hid|[c Hc]].
  - destruct IH as [IH|[c IH]]; [left | right; exists c];
      intros p; rewrite stamp_all_cons, Hid; apply IH.
  - right. exists (stamp_all pen bs x y c). intros p. now rewrite stamp_all_cons, Hc.
Qed.

(** X4. Redaction is idempotent for any list of regions: redacting the
    redacted image with the same regions changes nothing. *)
Theorem redact_phi_from_images_twice (pen : Pen) (phi_boxes : list phi_box)
    (img img' : Image) :
  redact_phi_from_images pen phi_boxes (Some img) = Ok img' →
  redact_phi_from_images pen phi_boxes (Some img') = Ok img'.
Proof.
  intros Hrun. apply redact_phi_from_images_Ok in Hrun as (Hne & bs & Hbs & ->).
  rewrite redact_phi_from_images_fold, Hbs.
  destruct phi_boxes as [|r rest]; [done|]. f_equal.
  rewrite map_pixels_compose. apply map_pixels_ext. intros x y p.
  destruct (stamp_all_constant pen bs x y) as [Hid|[c Hc]].
  - now rewrite !Hid.
  - now rewrite !Hc.
Qed.

Lemma redact_phi_from_images_twice_witness :
  let img' := map_pixels (stamp_all band_pen [(5, 5, 25, 25); (15, 0, 29, 29)])
                (uniform_image 30 30 (7, 7, 7)) in
  redact_phi_from_images band_pen overlapping_boxes (Some img') = Ok img'.
Proof.
  intros img'.
  apply (redact_phi_from_images_twice band_pen overlapping_boxes
           (uniform_image 30 30 (7, 7, 7))).
  apply redact_phi_from_images_fold.
Defined.

(** X5. The last region is drawn on top: after the redaction, a pixel of
    its box holds the outline colour where its outline passes and the fill
    colour elsewhere, whatever the earlier regions. *)
Theorem redact_phi_from_images_last_on_top (pen : Pen) (phi_boxes : list phi_box)
    (text : string) (box : list (Z * Z * Z * Z)) (b : Z * Z * Z * Z)
    (img img' : Image) (x y : nat) :
  redact_phi_from_images pen (phi_boxes ++ [(text, box)]) (Some img) = Ok img' →
  box !! 0%nat = Some b →
  is_Some (pixel img x y) →
  in_rect (box_x1 b, box_y1 b) (box_x2 b, box_y2 b) (Z.of_nat x) (Z.of_nat y) = true →
  pixel img' x y =
    Some (if pen LINE_4 (box_x1 b, box_y1 b) (box_x2 b, box_y2 b) (Z.of_nat x) (Z.of_nat y)
          then outline_color else fill_color).
Proof.
  intros Hrun Hbox [p Hp] Hrect.
  apply redact_phi_from_images_Ok in Hrun as (_ & bs & Hbs & ->).
  rewrite first_boxes_app, first_boxes_cons, Hbox in Hbs.
  destruct (first_boxes phi_boxes) as [bs1|]; [|discriminate].
  injection Hbs as <-.
  rewrite pixel_map_pixels, Hp. simpl. f_equal.
  rewrite stamp_all_app. change (stamp_all pen [b] x y ?q) with (stamp pen b x y q).
  unfold stamp at 1. now rewrite Hrect.
Qed.

Lemma redact_phi_from_images_last_on_top_witness :
  let img' := map_pixels (stamp_all band_pen [(5, 5, 25, 25); (15, 0, 29, 29)])
                (uniform_image 30 30 (7, 7, 7)) in
  pixel img' 22 15 = Some fill_color ∧ pixel img' 15 15 = Some outline_color.
Proof.
  intros img'.
  assert (Hrun : redact_phi_from_images band_pen
                   ([("Patient: John Doe"%string, [(5, 5, 25, 25)])] ++
                    [("DOB: 01/01/1970"%string, [(15, 0, 29, 29)])])
                   (Some (uniform_image 30 30 (7, 7, 7))) = Ok img')
    by apply (redact_phi_from_images_fold band_pen overlapping_boxes).
  split.
  - exact (redact_phi_from_images_last_on_top band_pen _ _ _ (15, 0, 29, 29) _ img'
             22 15 Hrun eq_refl (ex_intro _ _ eq_refl) eq_refl).
  - exact (redact_phi_from_images_last_on_top band_pen _ _ _ (15, 0, 29, 29) _ img'
             15 15 Hrun eq_refl (ex_intro _ _ eq_refl) eq_refl).
Defined.

(** X6. Redacting with two lists of regions in sequence is redacting with
    their concatenation, errors included, when neither list is empty. *)
Theorem redact_phi_from_images_app (pen : Pen) (l1 l2 : list phi_box) (img : Image) :
  l1 ≠ [] → l2 ≠ [] →
  redact_phi_from_images pen (l1 ++ l2) (Some img) =
  (img1 ← redact_phi_from_images pen l1 (Some img);
   redact_phi_from_images pen l2 (Some img1)).
Proof.
  intros H1 H2. destruct l1 as [|r1 l1]; [done|]. destruct l2 as [|r2 l2]; [done|].
  rewrite (redact_phi_from_images_fold pen (r1 :: l1)).
  rewrite (redact_phi_from_images_fold pen ((r1 :: l1) ++ r2 :: l2)).
  rewrite first_boxes_app. cbn [app].
  destruct (first_boxes (r1 :: l1)) as [bs1|]; [|reflexivity].
  unfold mbind, result_mbind, result_bind.
  rewrite (redact_phi_from_images_fold pen (r2 :: l2)).
  destruct (first_boxes (r2 :: l2)) as [bs2|]; [|reflexivity].
  f_equal. rewrite map_pixels_compose. apply map_pixels_ext.
  intros x y p. apply stamp_all_app.
Qed.

Lemma redact_phi_from_images_app_witness :
  redact_phi_from_images band_pen overlapping_boxes (Some (uniform_image 30 30 (7, 7, 7))) =
  (img1 ← redact_phi_from_images band_pen [("Patient: John Doe"%string, [(5, 5, 25, 25)])]
            (Some (uniform_image 30 30 (7, 7, 7)));
   redact_phi_from_images band_pen [("DOB: 01/01/1970"%string, [(15, 0, 29, 29)])]
     (Some img1)).
Proof.
  apply (redact_phi_from_images_app band_pen
           [("Patient: John Doe"%string, [(5, 5, 25, 25)])]
           [("DOB: 01/01/1970"%string, [(15, 0, 29, 29)])]); discriminate.
Defined.

Lemma stamp_all_covered (pen : Pen) (bs : list (Z * Z * Z * Z)) (b : Z * Z * Z * Z)
    (x y : nat) :
  b ∈ bs →
  in_rect (box_x1 b, box_y1 b) (box_x2 b, box_y2 b) (Z.of_nat x) (Z.of_nat y) = true →
  ∀ p q, stamp_all pen bs x y p = stamp_all pen bs x y q.
Proof.
  intros Hb Hrect. induction bs as [|b0 bs IH]; [inversion Hb|].
  intros p q. rewrite !stamp_all_cons.
  apply elem_of_cons in Hb as [<-|Hb].
  - f_equal. unfold stamp. now rewrite Hrect.
  - apply (IH Hb).
Qed.

(** X7. Nothing of the original shows in a box: two images of the same
    shape, redacted with the same regions, agree at every pixel that lies
    in the box of a region. *)
Theorem redact_phi_from_images_hides (pen : Pen) (phi_boxes : list phi_box)
    (img1 img2 img1' img2' : Image) (text : string) (box : list (Z * Z * Z * Z))
    (b : Z * Z * Z * Z) (x y : nat) :
  redact_phi_from_images pen phi_boxes (Some img1) = Ok img1' →
  redact_phi_from_images pen phi_boxes (Some img2) = Ok img2' →
  (text, box) ∈ phi_boxes → box !! 0%nat = Some b →
  in_rect (box_x1 b, box_y1 b) (box_x2 b, box_y2 b) (Z.of_nat x) (Z.of_nat y) = true →
  is_Some (pixel img1 x y) → is_Some (pixel img2 x y) →
  pixel img1' x y = pixel img2' x y.
Proof.
  intros Hrun1 Hrun2 Hin Hbox Hrect [p1 Hp1] [p2 Hp2].
  apply redact_phi_from_images_Ok in Hrun1 as (_ & bs & Hbs & ->).
  apply redact_phi_from_images_Ok in Hrun2 as (_ & bs' & Hbs' & ->).
  rewrite Hbs in Hbs'. injection Hbs' as <-.
  rewrite !pixel_map_pixels, Hp1, Hp2. simpl. f_equal.
  apply (stamp_all_covered pen bs b); [|exact Hrect].
  exact (proj1 (first_boxes_elem _ _ Hbs) text box b Hin Hbox).
Qed.

Lemma redact_phi_from_images_hides_witness :
  let img1' := map_pixels (stamp_all band_pen [(5, 5, 25, 25); (15, 0, 29, 29)])
                 (uniform_image 30 30 (7, 7, 7)) in
  let img2' := map_pixels (stamp_all band_pen [(5, 5, 25, 25); (15, 0, 29, 29)])
                 (uniform_image 30 30 (200, 100, 50)) in
  pixel img1' 10 10 = pixel img2' 10 10.
Proof.
  intros img1' img2'.
  apply (redact_phi_from_images_hides band_pen overlapping_boxes
           (uniform_image 30 30 (7, 7, 7)) (uniform_image 30 30 (200, 100, 50))
           img1' img2' "Patient: John Doe"%string [(5, 5, 25, 25)] (5, 5, 25, 25)).
  - apply redact_phi_from_images_fold.
  - apply redact_phi_from_images_fold.
  - now left.
  - reflexivity.
  - reflexivity.
  - now eexists.
  - now eexists.
Defined.

(** ** The planner, in full *)




Lemma detect_phi_boxes_loop_first_failure (comprehend : string → result (list Entity))
    (h w : Z) (before after : list TextDetection) (text : TextDetection) (e : exn) :
  (∀ t, t ∈ before → Type_ t = LINE →
     ∃ Entities, comprehend (DetectedText t) = Ok Entities) →
  Type_ text = LINE →
  comprehend (DetectedText text) = Raise e →
  detect_phi_boxes_loop comprehend h w (before ++ text :: after) = Raise e.
Proof.
  intros Hbefore Hline Hraise.
  induction before as [|t before IH]; cbn [app detect_phi_boxes_loop].
  - rewrite decide_True by exact Hline. now rewrite Hraise.
  - assert (IH' := IH (λ t' Ht', Hbefore t' (list_elem_of_further _ _ _ Ht'))).
    destruct (decide (Type_ t = LINE)) as [Ht|]; [|exact IH'].
    destruct (Hbefore t ltac:(now left) Ht) as [Entities ->].
    unfold mbind, result_mbind; simpl.
    destruct (isPhi Entities threshold); [|exact IH'].
    now rewrite IH'.
Qed.

(** X9. The first classifier call that raises stops the planner: when the
    calls for the [LINE] detections before a [LINE] detection return and
    the call for that one raises, [detect_phi_boxes] raises the same
    exception, whatever comes after. *)
Theorem detect_phi_boxes_first_failure (comprehend : string → result (list Entity))
    (before after : list TextDetection) (text : TextDetection) (a : Image) (e : exn) :
  (∀ t, t ∈ before → Type_ t = LINE →
     ∃ Entities, comprehend (DetectedText t) = Ok Entities) →
  Type_ text = LINE →
  comprehend (DetectedText text) = Raise e →
  detect_phi_boxes comprehend (before ++ text :: after) (Some a) = Raise e.
Proof. intros. now apply detect_phi_boxes_loop_first_failure. Qed.

Lemma detect_phi_boxes_first_failure_witness :
  detect_phi_boxes
    (λ s, if String.eqb s "Patient: John Doe" then Raise (ClientError "DetectPHI")
          else Ok [])
    ([patient_word] ++ patient_line :: [patient_word])
    (Some (uniform_image 20 10 (7, 7, 7)))
  = Raise (ClientError "DetectPHI").
Proof.
  apply detect_phi_boxes_first_failure.
  - intros t Ht Hline. apply list_elem_of_singleton in Ht as ->. discriminate Hline.
  - reflexivity.
  - reflexivity.
Defined.

Lemma threshold_below_notebook : (threshold < notebook_threshold)%Q.
Proof. reflexivity. Qed.

Lemma isPhi_threshold_mono (Entities : list Entity) (t t' : Q) :
  (t' <= t)%Q → isPhi Entities t = true → isPhi Entities t' = true.
Proof.
  intros Hle. rewrite !isPhi_true. intros (e & rest & -> & Hlt).
  exists e, rest. split; [reflexivity|]. exact (Qle_lt_trans _ _ _ Hle Hlt).
Qed.

(** X10. The Lambda flags whatever the notebook flags: its threshold, 0.3,
    is below the notebook's 0.4, so on the same detections and classifier
    the texts of the notebook's regions are, in order, among the texts of
    the Lambda's regions. *)
Theorem notebook_regions_among_lambda (comprehend : string → result (list Entity))
    (texts : list TextDetection) (h w h' w' : Z)
    (nb : list (string * list (Q * Q))) :
  notebook_phi_boxes comprehend h w texts = Ok nb →
  ∃ phi_boxes, detect_phi_boxes_loop comprehend h' w' texts = Ok phi_boxes ∧
               nb.*1 `sublist_of` phi_boxes.*1.
Proof.
  revert nb. induction texts as [|text texts' IH]; intros nb Hnb; simpl in Hnb.
  - injection Hnb as <-. exists []. split; [reflexivity | constructor].
  - cbn [detect_phi_boxes_loop].
    destruct (decide (Type_ text = LINE)) as [Hline|]; [|exact (IH nb Hnb)].
    unfold mbind, result_mbind in *.
    destruct (comprehend (DetectedText text)) as [Entities|e]; simpl in *;
      [|discriminate].
    destruct (isPhi Entities notebook_threshold) eqn:Hnote.
    + rewrite (isPhi_threshold_mono Entities notebook_threshold threshold
                 (Qlt_le_weak _ _ threshold_below_notebook) Hnote).
      destruct (notebook_phi_boxes comprehend h w texts') as [nb'|]; simpl in Hnb;
        [|discriminate].
      injection Hnb as <-. destruct (IH nb' eq_refl) as (boxes & -> & Hsub).
      eexists. split; [reflexivity|]. simpl. now constructor.
    + destruct (IH nb Hnb) as (boxes & -> & Hsub).
      destruct (isPhi Entities threshold); eexists; (split; [reflexivity|]).
      * simpl. now constructor.
      * exact Hsub.
Qed.

Lemma notebook_regions_among_lambda_witness :
  ∃ phi_boxes,
    detect_phi_boxes_loop always_phi 10 20 [patient_word; patient_line] = Ok phi_boxes ∧
    ["Patient: John Doe"%string] `sublist_of` phi_boxes.*1.
Proof.
  apply (notebook_regions_among_lambda always_phi [patient_word; patient_line]
           10 20 10 20 [("Patient: John Doe"%string, [])]).
  reflexivity.
Defined.



(** ** The key rewrite, in full *)

Lemma length_append (s1 s2 : string) :
  String.length (s1 +:+ s2) = (String.length s1 + String.length s2)%nat.
Proof. induction s1 as [|c s1 IH]; simpl; [reflexivity | now rewrite IH]. Qed.

(** A replacement by a string that is not shorter never shortens: what is
    still to skip is all that can be missing. *)
Lemma str_replace_from_length (old new s : string) :
  (1 ≤ String.length old ≤ String.length new)%nat →
  ∀ skip, (String.length s
           ≤ String.length (str_replace_from skip old new s) + skip)%nat.
Proof.
  intros Hlen. induction s as [|c s IH]; intros skip; [simpl; lia|].
  cbn [str_replace_from]. destruct skip as [|k].
  - destruct (String.prefix old (String c s)).
    + rewrite length_append. specialize (IH (String.length old - 1)%nat).
      simpl. lia.
    + specialize (IH 0%nat). simpl. lia.
  - specialize (IH k). simpl. lia.
Qed.

Lemma str_replace_grows (old new s : string) :
  (1 ≤ String.length old < String.length new)%nat →
  contains old s = true →
  (String.length s < String.length (str_replace s old new))%nat.
Proof.
  intros Hlen. unfold str_replace. induction s as [|c s IH]; cbn [contains str_replace_from].
  - destruct old; [simpl in Hlen; lia | discriminate].
  - destruct (String.prefix old (String c s)); simpl.
    + intros _. rewrite length_append.
      pose proof (str_replace_from_length old new s ltac:(lia) (String.length old - 1)%nat).
      lia.
    + intros Hrest. specialize (IH Hrest). lia.
Qed.

(** X12. The destination key is the source key exactly when the source key
    has no ['Images/'] in it: in every other case the redacted image goes
    to another key, which is longer. *)
Theorem str_replace_same_key (key : string) :
  str_replace key "Images/" "RedactedImages/" = key ↔ contains "Images/" key = false.
Proof.
  split.
  - intros Hsame. destruct (contains "Images/" key) eqn:Hocc; [|reflexivity].
    pose proof (str_replace_grows "Images/" "RedactedImages/" key
                  ltac:(simpl; lia) Hocc) as Hlen.
    rewrite Hsame in Hlen. lia.
  - apply str_replace_no_occurrence.
Qed.

(** X13. The rewrite is not idempotent: the destination of a key of the
    folder [Images/] still contains ['Images/'], and a second pass sends it
    to the folder [RedactedRedactedImages/]. *)
Theorem str_replace_second_pass (name : string) :
  contains "Images/" name = false →
  contains "Images/" (str_replace ("Images/" +:+ name) "Images/" "RedactedImages/") = true ∧
  str_replace (str_replace ("Images/" +:+ name) "Images/" "RedactedImages/")
    "Images/" "RedactedImages/"
  = "RedactedRedactedImages/" +:+ name.
Proof.
  intros Hno. rewrite (str_replace_Images_folder name Hno). split.
  - apply contains_occurs. exists "Redacted", name. reflexivity.
  - transitivity ("RedactedRedactedImages/"
                  +:+ str_replace name "Images/" "RedactedImages/").
    + destruct name; reflexivity.
    + now rewrite str_replace_no_occurrence.
Qed.

Lemma str_replace_second_pass_witness :
  contains "Images/" (str_replace ("Images/" +:+ "x_ray.jpg") "Images/" "RedactedImages/")
    = true ∧
  str_replace (str_replace ("Images/" +:+ "x_ray.jpg") "Images/" "RedactedImages/")
    "Images/" "RedactedImages/"
  = "RedactedRedactedImages/" +:+ "x_ray.jpg".
Proof. apply (str_replace_second_pass "x_ray.jpg"). reflexivity. Defined.

(** ** The box computation, in full *)




(** ** The handler, in full *)

Section HandlerRuns.

Variable pen : Pen.
Variable rekognition_detect_text : string → string → result (list TextDetection).
Variable comprehend : string → result (list Entity).
Variable imdecode : bytes → option Image.
Variable imencode : Image → bytes.

Local Abbreviation handler :=
  (lambda_handler pen rekognition_detect_text comprehend imdecode imencode).

Local Abbreviation destination event :=
  (bucket_name event, str_replace (object_key event) "Images/" "RedactedImages/").



(** X17. An object that does not decode to an image is noticed only after
    the text detection: if the detection raises, its exception comes out;
    if it returns, the handler raises [AttributeError], before any call of
    the classifier. Nothing is written. *)
Theorem lambda_handler_undecodable (event : Event) (s : S3) (file_stream : bytes) :
  objects s !! (bucket_name event, object_key event) = Some file_stream →
  imdecode file_stream = None →
  handler event s =
  (match rekognition_detect_text (bucket_name event) (object_key event) with
   | Ok _ => Raise AttributeError
   | Raise e => Raise e
   end, s).
Proof.
  intros Hget Hdecode. rewrite lambda_handler_steps, Hget, Hdecode.
  destruct (rekognition_detect_text _ _); reflexivity.
Qed.

(** X18. A run touches at most the destination key: every other object of
    every bucket reads as before, no object disappears, and at most one
    [put_object] is made, to the destination key. *)
Theorem lambda_handler_frame (event : Event) (s s' : S3) (r : result Response) :
  handler event s = (r, s') →
  (∀ bucket_key, bucket_key ≠ destination event →
     objects s' !! bucket_key = objects s !! bucket_key) ∧
  (∀ bucket_key, is_Some (objects s !! bucket_key) → is_Some (objects s' !! bucket_key)) ∧
  (put_log s' = put_log s ∨
   ∃ Body, put_log s' = put_log s ++ [(destination event, Body)]).
Proof.
  intros Hrun.
  destruct (lambda_handler_outcome _ _ _ _ _ _ _ _ _ Hrun)
    as [[-> _] | (file_stream & texts & phi_boxes & img_redacted & _ & _ & _ & _ & _ & ->)].
  - repeat split; auto.
  - simpl. split; [|split].
    + intros bucket_key Hne. now rewrite lookup_insert_ne.
    + intros bucket_key Hsome.
      destruct (decide (destination event = bucket_key)) as [<-|Hne].
      * rewrite lookup_insert_eq. eauto.
      * now rewrite lookup_insert_ne.
    + right. eauto.
Qed.

(** X19. When the key of the event contains ['Images/'], the object that
    was read is still there, unchanged, after the run. *)
Theorem lambda_handler_keeps_source (event : Event) (s s' : S3) (r : result Response) :
  handler event s = (r, s') →
  contains "Images/" (object_key event) = true →
  objects s' !! (bucket_name event, object_key event)
    = objects s !! (bucket_name event, object_key event).
Proof.
  intros Hrun Hocc.
  destruct (lambda_handler_outcome _ _ _ _ _ _ _ _ _ Hrun)
    as [[-> _] | (file_stream & texts & phi_boxes & img_redacted & _ & _ & _ & _ & _ & ->)];
    [reflexivity|].
  simpl. apply lookup_insert_ne. intros [= Hkey].
  pose proof (str_replace_grows "Images/" "RedactedImages/" (object_key event)
                ltac:(simpl; lia) Hocc) as Hlen.
  rewrite Hkey in Hlen. lia.
Qed.

(** X20. A run that returned can be replayed: when the key of the event
    contains ['Images/'], the same event on the resulting bucket returns
    again and leaves the objects as they are. *)
Theorem lambda_handler_replay (event : Event) (s s' : S3) (response : Response) :
  handler event s = (Ok response, s') →
  contains "Images/" (object_key event) = true →
  ∃ s'', handler event s' = (Ok response, s'') ∧ objects s'' = objects s'.
Proof.
  intros Hrun Hocc.
  destruct (lambda_handler_outcome _ _ _ _ _ _ _ _ _ Hrun)
    as [[_ [e [=]]] | (file_stream & texts & phi_boxes & img_redacted &
                       Hget & Htexts & Hplan & Hredact & [= ->] & ->)].
  assert (Hne : destination event ≠ (bucket_name event, object_key event)).
  { intros [= Hkey].
    pose proof (str_replace_grows "Images/" "RedactedImages/" (object_key event)
                  ltac:(simpl; lia) Hocc) as Hlen.
    rewrite Hkey in Hlen. lia. }
  eexists. split.
  - rewrite lambda_handler_steps. simpl.
    rewrite (lookup_insert_ne _ _ _ _ Hne), Hget, Htexts, Hplan, Hredact. reflexivity.
  - simpl. apply insert_insert_eq.
Qed.

(** X23. One classifier call that raises fails the whole invocation: the
    handler raises the exception of the first such call on a [LINE], and
    writes nothing, whatever the other lines are. *)
Theorem lambda_handler_classifier_failure (event : Event) (s : S3) (file_stream : bytes)
    (a : Image) (before after : list TextDetection) (text : TextDetection) (e : exn) :
  objects s !! (bucket_name event, object_key event) = Some file_stream →
  imdecode file_stream = Some a →
  rekognition_detect_text (bucket_name event) (object_key event)
    = Ok (before ++ text :: after) →
  (∀ t, t ∈ before → Type_ t = LINE →
     ∃ Entities, comprehend (DetectedText t) = Ok Entities) →
  Type_ text = LINE →
  comprehend (DetectedText text) = Raise e →
  handler event s = (Raise e, s).
Proof.
  intros Hget Hdecode Htexts Hbefore Hline Hraise.
  rewrite lambda_handler_steps, Hget, Htexts, Hdecode.
  unfold detect_phi_boxes; simpl.
  now rewrite (detect_phi_boxes_loop_first_failure comprehend _ _ _ _ _ _
                 Hbefore Hline Hraise).
Qed.

End HandlerRuns.

(** The sample run returns, for every key. *)
Lemma sample_run_returns (key : string) :
  sample_run key = (Ok {| statusCode := 200; body := json_dumps_hello |}, (sample_run key).2).
Proof.
  unfold sample_run. rewrite lambda_handler_steps. simpl.
  rewrite lookup_singleton_eq. reflexivity.
Qed.



Lemma lambda_handler_undecodable_witness :
  lambda_handler band_pen rekognition_patient always_phi (λ _, None) sample_imencode
    (sample_event "Images/x_ray.jpg") (sample_s3 "Images/x_ray.jpg")
  = (Raise AttributeError, sample_s3 "Images/x_ray.jpg").
Proof.
  apply (lambda_handler_undecodable band_pen rekognition_patient always_phi (λ _, None)
           sample_imencode (sample_event "Images/x_ray.jpg") (sample_s3 "Images/x_ray.jpg")
           [Byte.xff; Byte.xd8]).
  - apply lookup_singleton_eq.
  - reflexivity.
Defined.

Lemma lambda_handler_frame_witness :
  objects (sample_run "Images/x_ray.jpg").2 !! ("bucket"%string, "Images/x_ray.jpg"%string)
    = Some [Byte.xff; Byte.xd8] ∧
  (put_log (sample_run "Images/x_ray.jpg").2 = [] ∨
   ∃ Body, put_log (sample_run "Images/x_ray.jpg").2
           = [] ++ [("bucket"%string, "RedactedImages/x_ray.jpg"%string, Body)]).
Proof.
  destruct (lambda_handler_frame band_pen rekognition_patient always_phi sample_imdecode
              sample_imencode (sample_event "Images/x_ray.jpg") (sample_s3 "Images/x_ray.jpg")
              _ _ (sample_run_returns "Images/x_ray.jpg")) as (Hother & _ & Hlog).
  split; [|exact Hlog].
  rewrite (Hother ("bucket"%string, "Images/x_ray.jpg"%string)) by discriminate.
  apply lookup_singleton_eq.
Defined.

Lemma lambda_handler_keeps_source_witness :
  objects (sample_run "Images/x_ray.jpg").2 !! ("bucket"%string, "Images/x_ray.jpg"%string)
    = Some [Byte.xff; Byte.xd8].
Proof.
  etransitivity.
  - exact (lambda_handler_keeps_source band_pen rekognition_patient always_phi
             sample_imdecode sample_imencode (sample_event "Images/x_ray.jpg")
             (sample_s3 "Images/x_ray.jpg") _ _ (sample_run_returns "Images/x_ray.jpg")
             eq_refl).
  - apply lookup_singleton_eq.
Defined.

Lemma lambda_handler_replay_witness :
  ∃ s'', lambda_handler band_pen rekognition_patient always_phi sample_imdecode
           sample_imencode (sample_event "Images/x_ray.jpg")
           (sample_run "Images/x_ray.jpg").2
         = (Ok {| statusCode := 200; body := json_dumps_hello |}, s'') ∧
         objects s'' = objects (sample_run "Images/x_ray.jpg").2.
Proof.
  exact (lambda_handler_replay band_pen rekognition_patient always_phi sample_imdecode
           sample_imencode (sample_event "Images/x_ray.jpg") (sample_s3 "Images/x_ray.jpg")
           _ _ (sample_run_returns "Images/x_ray.jpg") eq_refl).
Defined.

(** ** Storing *)


(** ** The preview of the notebook *)

Lemma notebook_frames_last (draw_polygon draw_line : Image → list (Q * Q) → Image)
    (phi_boxes : list (string * list (Q * Q))) :
  ∀ img, last (img :: (notebook_frames draw_polygon draw_line phi_boxes img).2)
         = Some (notebook_frames draw_polygon draw_line phi_boxes img).1.
Proof.
  induction phi_boxes as [|[text box] rest IH]; intros img; [reflexivity|].
  cbn [notebook_frames].
  specialize (IH (draw_line (draw_polygon img box) box)).
  destruct (notebook_frames draw_polygon draw_line rest _) as [img' frames].
  exact IH.
Qed.

(** X22. With at least one region, the notebook saves a preview of two
    frames for each region, and the last frame is the image as it is after
    the loop, the one that is then uploaded. *)
Theorem notebook_preview_frames (draw_polygon draw_line : Image → list (Q * Q) → Image)
    (phi_boxes : list (string * list (Q * Q))) (img : Image) :
  phi_boxes ≠ [] →
  ∃ frames, notebook_preview draw_polygon draw_line phi_boxes img = Ok frames ∧
            length frames = (2 * length phi_boxes)%nat ∧
            last frames = Some (notebook_frames draw_polygon draw_line phi_boxes img).1.
Proof.
  intros Hne. unfold notebook_preview.
  pose proof (notebook_frames_length draw_polygon draw_line phi_boxes img) as Hlen.
  pose proof (notebook_frames_last draw_polygon draw_line phi_boxes img) as Hlast.
  destruct (notebook_frames draw_polygon draw_line phi_boxes img).2 as [|first frames].
  - destruct phi_boxes; [done | simpl in Hlen; lia].
  - exists (first :: frames). simpl. rewrite drop_0.
    split; [reflexivity|]. split; [exact Hlen | exact Hlast].
Qed.

Lemma notebook_preview_frames_witness :
  ∃ frames,
    notebook_preview (λ img _, paint (λ _ _, true) (20, 20, 20) img)
      (λ img _, paint (λ x y, bool_decide (x = y)) (255, 255, 255) img)
      [("Patient: John Doe"%string, [])] (uniform_image 2 2 (7, 7, 7)) = Ok frames ∧
    length frames = (2 * 1)%nat ∧
    last frames =
      Some (notebook_frames (λ img _, paint (λ _ _, true) (20, 20, 20) img)
              (λ img _, paint (λ x y, bool_decide (x = y)) (255, 255, 255) img)
              [("Patient: John Doe"%string, [])] (uniform_image 2 2 (7, 7, 7))).1.
Proof.
  apply (notebook_preview_frames (λ img _, paint (λ _ _, true) (20, 20, 20) img)
           (λ img _, paint (λ x y, bool_decide (x = y)) (255, 255, 255) img)
           [("Patient: John Doe"%string, [])] (uniform_image 2 2 (7, 7, 7))).
  discriminate.
Defined.

Lemma lambda_handler_classifier_failure_witness :
  lambda_handler band_pen (λ _ _, Ok ([patient_word] ++ patient_line :: [patient_word]))
    (λ _, Raise (ClientError "DetectPHI")) sample_imdecode sample_imencode
    (sample_event "Images/x_ray.jpg") (sample_s3 "Images/x_ray.jpg")
  = (Raise (ClientError "DetectPHI"), sample_s3 "Images/x_ray.jpg").
Proof.
  apply (lambda_handler_classifier_failure band_pen
           (λ _ _, Ok ([patient_word] ++ patient_line :: [patient_word]))
           (λ _, Raise (ClientError "DetectPHI")) sample_imdecode sample_imencode
           (sample_event "Images/x_ray.jpg") (sample_s3 "Images/x_ray.jpg")
           [Byte.xff; Byte.xd8] (uniform_image 20 10 (7, 7, 7))
           [patient_word] [patient_word] patient_line).
  - apply lookup_singleton_eq.
  - reflexivity.
  - reflexivity.
  - intros t Ht Hline. apply list_elem_of_singleton in Ht as ->. discriminate Hline.
  - reflexivity.
  - reflexivity.
Defined.
